(** * The posts.json generator

    A shallow embedding of the build-time script that walks
    [src/content/blog], reads the front matter of the [index.md] of every
    folder and writes [public/posts.json].

    The script is written against three libraries that are not part of the
    repository: Node's [fs] and [path], and [gray-matter].
    - The file system is a tree of regular files and directories rooted at
      the working directory of the process; a directory keeps its entries
      in enumeration order.  The calls of [fs] are functions on this tree
      that return a value or throw.
    - [gray-matter] is a parameter of the development: a function from the
      text of a document to the [data] it reads, or to the exception it
      throws.  So is the conversion of a Number to its decimal text, which
      only [JSON.stringify] needs.
    - A string is the sequence of bytes of its UTF-8 encoding, which is
      what the script reads from and writes to disk.
    - The script catches no exception: one that is thrown ends the process
      with exit status 1. *)

From Stdlib Require Import List String Ascii Bool Arith Lia PrimFloat.
From Stdlib Require Import Permutation.
Import ListNotations.
Local Open Scope list_scope.
Local Open Scope string_scope.

(** ** Text helpers *)

Definition chr (n : nat) : string := String (ascii_of_nat n) EmptyString.

Definition nl : string := chr 10.
Definition dquote : string := chr 34.
Definition backslash : string := chr 92.

Fixpoint join (sep : string) (parts : list string) : string :=
  match parts with
  | [] => EmptyString
  | [p] => p
  | p :: rest => p ++ sep ++ join sep rest
  end.

Fixpoint repeat_string (s : string) (n : nat) : string :=
  match n with
  | O => EmptyString
  | S n' => s ++ repeat_string s n'
  end.

(** Decimal text of a natural number, as a template literal prints
    [posts.length]. *)
Definition digit (n : nat) : string := chr (48 + n).

Fixpoint decimal_fuel (fuel n : nat) (acc : string) : string :=
  match fuel with
  | O => acc
  | S fuel' =>
      let acc' := digit (n mod 10) ++ acc in
      if Nat.eqb (n / 10) 0 then acc' else decimal_fuel fuel' (n / 10) acc'
  end.

Definition decimal (n : nat) : string := decimal_fuel (S n) n EmptyString.

Definition hex_digit (n : nat) : string :=
  if Nat.ltb n 10 then chr (48 + n) else chr (87 + n).

(** ** JavaScript values

    The values a YAML front matter can hold, and the objects the script
    builds from them.  A string is the sequence of bytes of its UTF-8
    encoding.  An object is the list of its own properties in property
    order. *)

#[local] Set Warnings "-register-all".

Inductive jsval : Type :=
| JUndefined
| JNull
| JBool (b : bool)
| JNum (x : float)
| JStr (s : string)
| JArr (items : list jsval)
| JObj (props : list (string * jsval)).

(** [ToBoolean]: the test an [if] and an [&&] apply to a value. *)
Definition to_boolean (v : jsval) : bool :=
  match v with
  | JUndefined => false
  | JNull => false
  | JBool b => b
  | JNum x => negb (is_zero x || is_nan x)
  | JStr s => negb (String.eqb s EmptyString)
  | JArr _ => true
  | JObj _ => true
  end.

(** [a && b]: the left operand when it is falsy, the right one otherwise. *)
Definition js_and (a b : jsval) : jsval :=
  if to_boolean a then b else a.

Fixpoint own_property (key : string) (props : list (string * jsval)) : jsval :=
  match props with
  | [] => JUndefined
  | (k, v) :: rest => if String.eqb k key then v else own_property key rest
  end.

(** Exceptions the script can meet.  None of them is caught anywhere in the
    script. *)
Inductive exn : Type :=
| ENOENT
| ENOTDIR
| EACCES
| EISDIR
| TypeError
| YAMLException.

(** [v.key] for a key that no prototype defines ([title], [summary]):
    reading a property of [null] or [undefined] throws, a primitive or an
    array has no such property. *)
Definition get_property (v : jsval) (key : string) : exn + jsval :=
  match v with
  | JUndefined | JNull => inl TypeError
  | JObj props => inr (own_property key props)
  | _ => inr JUndefined
  end.

(** ** JSON.stringify *)

Definition quote_char (c : ascii) : string :=
  let n := nat_of_ascii c in
  if Nat.eqb n 34 then backslash ++ dquote
  else if Nat.eqb n 92 then backslash ++ backslash
  else if Nat.eqb n 8 then backslash ++ "b"
  else if Nat.eqb n 12 then backslash ++ "f"
  else if Nat.eqb n 10 then backslash ++ "n"
  else if Nat.eqb n 13 then backslash ++ "r"
  else if Nat.eqb n 9 then backslash ++ "t"
  else if Nat.ltb n 32 then backslash ++ "u00" ++ hex_digit (n / 16) ++ hex_digit (n mod 16)
  else String c EmptyString.

Fixpoint quote_body (s : string) : string :=
  match s with
  | EmptyString => EmptyString
  | String c rest => quote_char c ++ quote_body rest
  end.

Definition quote (s : string) : string := dquote ++ quote_body s ++ dquote.

Section Stringify.

(** [Number::toString] of a finite Number. *)
Variable number_to_string : float -> string.

Variable gap : string.

(** [SerializeJSONProperty]: [None] stands for [undefined], the result for
    a value that JSON cannot hold. *)
Fixpoint serialize (indent : string) (v : jsval) {struct v} : option string :=
  match v with
  | JUndefined => None
  | JNull => Some "null"
  | JBool true => Some "true"
  | JBool false => Some "false"
  | JNum x => Some (if is_finite x then number_to_string x else "null")
  | JStr s => Some (quote s)
  | JArr items =>
      let stepback := indent in
      let indent := indent ++ gap in
      let partial :=
        map (fun item =>
               match serialize indent item with
               | Some text => text
               | None => "null"
               end) items in
      match partial with
      | [] => Some "[]"
      | _ =>
          if String.eqb gap EmptyString
          then Some ("[" ++ join "," partial ++ "]")
          else
            let separator := "," ++ nl ++ indent in
            Some ("[" ++ nl ++ indent ++ join separator partial
                      ++ nl ++ stepback ++ "]")
      end
  | JObj props =>
      let stepback := indent in
      let indent := indent ++ gap in
      let partial :=
        flat_map (fun kv =>
                    match serialize indent (snd kv) with
                    | Some text =>
                        [quote (fst kv)
                           ++ (if String.eqb gap EmptyString then ":" else ": ")
                           ++ text]
                    | None => []
                    end) props in
      match partial with
      | [] => Some "{}"
      | _ =>
          if String.eqb gap EmptyString
          then Some ("{" ++ join "," partial ++ "}")
          else
            let separator := "," ++ nl ++ indent in
            Some ("{" ++ nl ++ indent ++ join separator partial
                      ++ nl ++ stepback ++ "}")
      end
  end.

End Stringify.

(** [JSON.stringify(value, null, space)] for a numeric [space]. *)
Definition JSON_stringify (number_to_string : float -> string)
    (value : jsval) (space : nat) : option string :=
  serialize number_to_string (repeat_string " " (Nat.min 10 space))
            EmptyString value.

(** ** The file system

    A tree rooted at the working directory of the process.  A directory
    lists its entries in enumeration order; the two flags of a node say
    whether the process may read it and write it.  A path is the list of
    its components below the working directory, so [path.resolve] of a
    relative path is the path itself and [path.join] appends components
    (entry names are single components: [readdirSync] never returns [.],
    [..] or a name holding a separator). *)

Inductive node : Type :=
| File (readable writable : bool) (content : string)
| Dir (readable writable : bool) (entries : list (string * node)).

Definition path := list string.

Definition path_join (dir : path) (parts : list string) : path :=
  (dir ++ parts)%list.

Definition is_dir (n : node) : bool :=
  match n with
  | Dir _ _ _ => true
  | File _ _ _ => false
  end.

Fixpoint find_entry (name : string) (entries : list (string * node))
  : option node :=
  match entries with
  | [] => None
  | (k, n) :: rest => if String.eqb k name then Some n else find_entry name rest
  end.

Fixpoint replace_entry (name : string) (n' : node)
    (entries : list (string * node)) : list (string * node) :=
  match entries with
  | [] => []
  | (k, n) :: rest =>
      if String.eqb k name then (k, n') :: rest
      else (k, n) :: replace_entry name n' rest
  end.

(** Path resolution, with the error the system call reports when it
    fails. *)
Fixpoint resolve (p : path) (n : node) : exn + node :=
  match p with
  | [] => inr n
  | name :: rest =>
      match n with
      | File _ _ _ => inl ENOTDIR
      | Dir _ _ entries =>
          match find_entry name entries with
          | None => inl ENOENT
          | Some child => resolve rest child
          end
      end
  end.

(** The tree after [data] has replaced the content of the file at [p]:
    an existing file keeps its place and its flags, a new file is added
    to its parent directory, which must exist. *)
Fixpoint write_at (p : path) (data : string) (n : node) : exn + node :=
  match p with
  | [] =>
      match n with
      | Dir _ _ _ => inl EISDIR
      | File r w _ => if w then inr (File r w data) else inl EACCES
      end
  | name :: rest =>
      match n with
      | File _ _ _ => inl ENOTDIR
      | Dir r w entries =>
          match find_entry name entries with
          | Some child =>
              match write_at rest data child with
              | inl e => inl e
              | inr child' => inr (Dir r w (replace_entry name child' entries))
              end
          | None =>
              match rest with
              | [] =>
                  if w
                  then inr (Dir r w (entries ++ [(name, File true true data)])%list)
                  else inl EACCES
              | _ :: _ => inl ENOENT
              end
          end
      end
  end.

(** ** The process: file system, calls made so far, and a monad for code
    that reads and writes them and may throw *)

Inductive call : Type :=
| ReaddirSync (p : path)
| ExistsSync (p : path)
| ReadFileSync (p : path)
| WriteFileSync (p : path) (data : string)
| ConsoleLog (line : string).

Record world : Type := World { fs : node; calls : list call }.

Definition M (A : Type) : Type := world -> (exn + A) * world.

Definition ret {A : Type} (a : A) : M A := fun w => (inr a, w).

Definition throw {A : Type} (e : exn) : M A := fun w => (inl e, w).

Definition bind {A B : Type} (m : M A) (k : A -> M B) : M B :=
  fun w =>
    match m w with
    | (inl e, w') => (inl e, w')
    | (inr a, w') => k a w'
    end.

Definition lift {A : Type} (r : exn + A) : M A :=
  match r with
  | inl e => throw e
  | inr a => ret a
  end.

Definition record (c : call) : M unit :=
  fun w => (inr tt, World (fs w) (calls w ++ [c])%list).

Declare Scope js_scope.
Delimit Scope js_scope with js.
Notation "x <- m ;; k" := (bind m (fun x => k))
  (at level 100, m at next level, right associativity) : js_scope.
Notation "m ;;; k" := (bind m (fun _ => k))
  (at level 100, right associativity) : js_scope.
Local Open Scope js_scope.

(** A directory entry as [readdirSync] returns it with [withFileTypes]. *)
Record Dirent : Type := MkDirent { name : string; isDirectory : bool }.

Definition dirent_of (entry : string * node) : Dirent :=
  MkDirent (fst entry) (is_dir (snd entry)).

Definition readdirSync (p : path) : M (list Dirent) :=
  record (ReaddirSync p) ;;;
  fun w =>
    match resolve p (fs w) with
    | inl e => (inl e, w)
    | inr (File _ _ _) => (inl ENOTDIR, w)
    | inr (Dir r _ entries) =>
        if r then (inr (map dirent_of entries), w) else (inl EACCES, w)
    end.

(** [existsSync] never throws: any failure to reach the path is [false]. *)
Definition existsSync (p : path) : M bool :=
  record (ExistsSync p) ;;;
  fun w =>
    match resolve p (fs w) with
    | inl _ => (inr false, w)
    | inr _ => (inr true, w)
    end.

Definition readFileSync (p : path) : M string :=
  record (ReadFileSync p) ;;;
  fun w =>
    match resolve p (fs w) with
    | inl e => (inl e, w)
    | inr (Dir _ _ _) => (inl EISDIR, w)
    | inr (File r _ content) =>
        if r then (inr content, w) else (inl EACCES, w)
    end.

Definition writeFileSync (p : path) (data : string) : M unit :=
  record (WriteFileSync p data) ;;;
  fun w =>
    match write_at p data (fs w) with
    | inl e => (inl e, w)
    | inr fs' => (inr tt, World fs' (calls w))
    end.

Definition console_log (line : string) : M unit := record (ConsoleLog line).

(** [for (const x of xs) body], the body updating the local [acc]. *)
Fixpoint for_of {A B : Type} (xs : list A) (body : A -> B -> M B) (acc : B)
  : M B :=
  match xs with
  | [] => ret acc
  | x :: rest => acc' <- body x acc ;; for_of rest body acc'
  end.

(** ** The script *)

(** [path.resolve('./src/content/blog')] and
    [path.resolve('./public/posts.json')]. *)
Definition postsDir : path := ["src"; "content"; "blog"].
Definition outputFile : path := ["public"; "posts.json"].

(** The three bytes of U+2705, which opens the line the script prints. *)
Definition check_mark : string := chr 226 ++ chr 156 ++ chr 133.

Section Script.

(** [matter content] is the [data] of the file object that gray-matter
    returns for the text [content], or the exception it throws. *)
Variable matter : string -> exn + jsval.

Variable number_to_string : float -> string.

(** The object pushed for a folder. *)
Definition post (title summary : jsval) (url : string) : jsval :=
  JObj [("title", title); ("summary", summary); ("url", JStr url)].

(** One turn of the loop of [getPostsFromDir]: the body of
    [for (const folder of folders)].  The test [data.title && data.summary]
    reads [data.summary] only when [data.title] is truthy, and the object
    literal reads both properties again. *)
Definition visit (dir : path) (folder : Dirent) (posts : list jsval)
  : M (list jsval) :=
  let postFile := path_join dir [name folder; "index.md"] in
  found <- existsSync postFile ;;
  if found then
    content <- readFileSync postFile ;;
    data <- lift (matter content) ;;
    title <- lift (get_property data "title") ;;
    test <- (if to_boolean title
             then lift (get_property data "summary")
             else ret title) ;;
    if to_boolean test then
      let url := "/blog/" ++ name folder in
      title <- lift (get_property data "title") ;;
      summary <- lift (get_property data "summary") ;;
      ret (posts ++ [post title summary url])%list
    else ret posts
  else ret posts.

(** [readdirSync(dir, { withFileTypes: true })] filtered by [isDirectory],
    then the loop over the folders with [posts] starting empty. *)
Definition getPostsFromDir (dir : path) : M (list jsval) :=
  entries <- readdirSync dir ;;
  let folders := filter isDirectory entries in
  for_of folders (visit dir) [].

(** The top level of the module: collect, write, report.  [JSON.stringify]
    returns a string for every array; were it [undefined], [writeFileSync]
    would throw a [TypeError]. *)
Definition main : M unit :=
  posts <- getPostsFromDir postsDir ;;
  text <- match JSON_stringify number_to_string (JArr posts) 2 with
          | Some text => ret text
          | None => throw TypeError
          end ;;
  writeFileSync outputFile text ;;;
  console_log (check_mark ++ " posts.json generated with "
                 ++ decimal (List.length posts) ++ " posts").

(** Running the script in a fresh process over the tree [t]: the exit
    status ([1] for an uncaught exception) and the final state. *)
Definition run (t : node) : nat * world :=
  match main (World t []) with
  | (inr _, w) => (0, w)
  | (inl _, w) => (1, w)
  end.

Definition exit_status (t : node) : nat := fst (run t).
Definition final_fs (t : node) : node := fs (snd (run t)).
Definition trace (t : node) : list call := calls (snd (run t)).

End Script.

(** The content of the output file in a tree, when it is a file. *)
Definition artifact (t : node) : option string :=
  match resolve outputFile t with
  | inr (File _ _ content) => Some content
  | _ => None
  end.

(** ** What one scan computes

    The same computation written as plain functions of the tree.  They are
    proved equal to the monadic code below and carry the reasoning. *)

Section Reading.

Variable matter : string -> exn + jsval.

(** The verdict on the text of one document: an exception, no record, or
    the record to push. *)
Definition document_verdict (slug content : string) : exn + option jsval :=
  match matter content with
  | inl e => inl e
  | inr data =>
      match get_property data "title" with
      | inl e => inl e
      | inr title =>
          if to_boolean title then
            match get_property data "summary" with
            | inl e => inl e
            | inr summary =>
                if to_boolean summary
                then inr (Some (post title summary ("/blog/" ++ slug)))
                else inr None
            end
          else inr None
      end
  end.

(** The verdict on a folder, from what its [index.md] path resolves to. *)
Definition unit_verdict (slug : string) (index : exn + node)
  : exn + option jsval :=
  match index with
  | inl _ => inr None
  | inr (Dir _ _ _) => inl EISDIR
  | inr (File r _ content) =>
      if r then document_verdict slug content else inl EACCES
  end.

Definition unit_calls (p : path) (index : exn + node) : list call :=
  match index with
  | inl _ => [ExistsSync p]
  | inr _ => [ExistsSync p; ReadFileSync p]
  end.

Definition index_path (dir : path) (slug : string) : path :=
  path_join dir [slug; "index.md"].

(** The loop over the folder names: the value it ends with and the calls
    it makes, stopping at the first exception. *)
Fixpoint scan_units (t : node) (dir : path) (slugs : list string)
    (posts : list jsval) : (exn + list jsval) * list call :=
  match slugs with
  | [] => (inr posts, [])
  | slug :: rest =>
      let index := resolve (index_path dir slug) t in
      let here := unit_calls (index_path dir slug) index in
      match unit_verdict slug index with
      | inl e => (inl e, here)
      | inr None =>
          let (r, cs) := scan_units t dir rest posts in (r, (here ++ cs)%list)
      | inr (Some p) =>
          let (r, cs) := scan_units t dir rest (posts ++ [p])%list in
          (r, (here ++ cs)%list)
      end
  end.

Definition folder_names (entries : list (string * node)) : list string :=
  map name (filter isDirectory (map dirent_of entries)).

(** The whole of [getPostsFromDir]. *)
Definition scan (t : node) (dir : path) : (exn + list jsval) * list call :=
  match resolve dir t with
  | inl e => (inl e, [ReaddirSync dir])
  | inr (File _ _ _) => (inl ENOTDIR, [ReaddirSync dir])
  | inr (Dir r _ entries) =>
      if r then
        let (res, cs) := scan_units t dir (folder_names entries) [] in
        (res, ReaddirSync dir :: cs)
      else (inl EACCES, [ReaddirSync dir])
  end.

End Reading.

(** The effect of a verdict on the array being built. *)
Definition push (v : exn + option jsval) (posts : list jsval)
  : exn + list jsval :=
  match v with
  | inl e => inl e
  | inr None => inr posts
  | inr (Some p) => inr (posts ++ [p])%list
  end.

(** The text [JSON.stringify(posts, null, 2)]. *)
Definition posts_json (number_to_string : float -> string)
    (posts : list jsval) : string :=
  match JSON_stringify number_to_string (JArr posts) 2 with
  | Some text => text
  | None => EmptyString
  end.

Definition success_line (posts : list jsval) : string :=
  check_mark ++ " posts.json generated with "
    ++ decimal (List.length posts) ++ " posts".

(** The verdict on the folder [slug] of [dir] in the tree [t], the calls
    its turn of the loop makes, and the records the loop collects from a
    list of folders when no turn throws. *)
Definition verdict_at (matter : string -> exn + jsval) (t : node) (dir : path)
    (slug : string) : exn + option jsval :=
  unit_verdict matter slug (resolve (index_path dir slug) t).

Definition calls_at (t : node) (dir : path) (slug : string) : list call :=
  unit_calls (index_path dir slug) (resolve (index_path dir slug) t).

Definition record_of_verdict (v : exn + option jsval) : list jsval :=
  match v with
  | inr (Some p) => [p]
  | _ => []
  end.

Definition is_included (matter : string -> exn + jsval) (t : node)
    (dir : path) (slug : string) : bool :=
  match verdict_at matter t dir slug with
  | inr (Some _) => true
  | _ => false
  end.

Definition throws (matter : string -> exn + jsval) (t : node)
    (dir : path) (slug : string) : bool :=
  match verdict_at matter t dir slug with
  | inl _ => true
  | inr _ => false
  end.

Definition included (matter : string -> exn + jsval) (t : node) (dir : path)
    (slugs : list string) : list jsval :=
  flat_map (fun slug => record_of_verdict (verdict_at matter t dir slug)) slugs.

(** Two readers of front matter that throw on the same documents and read
    the same [title] and the same [summary] from every other one; whatever
    else they read may differ. *)
Definition same_title_summary (m1 m2 : string -> exn + jsval) : Prop :=
  forall content : string,
    match m1 content, m2 content with
    | inl e1, inl e2 => e1 = e2
    | inr d1, inr d2 =>
        get_property d1 "title" = get_property d2 "title"
        /\ get_property d1 "summary" = get_property d2 "summary"
    | _, _ => False
    end.

(** What the scanner can see of a directory listing: each direct
    subdirectory, in order, with the entry named [index.md] that it holds,
    if any. *)
Fixpoint candidates (entries : list (string * node))
  : list (string * option node) :=
  match entries with
  | [] => []
  | (k, Dir _ _ sub) :: rest => (k, find_entry "index.md" sub) :: candidates rest
  | (k, File _ _ _) :: rest => candidates rest
  end.

Definition index_of (found : option node) : exn + node :=
  match found with
  | Some n => inr n
  | None => inl ENOENT
  end.

(** The loop of [scan_units], run over such a view. *)
Fixpoint scan_candidates (matter : string -> exn + jsval) (dir : path)
    (views : list (string * option node)) (posts : list jsval)
  : (exn + list jsval) * list call :=
  match views with
  | [] => (inr posts, [])
  | (slug, found) :: rest =>
      let here := unit_calls (index_path dir slug) (index_of found) in
      match unit_verdict matter slug (index_of found) with
      | inl e => (inl e, here)
      | inr None =>
          let (r, cs) := scan_candidates matter dir rest posts in
          (r, (here ++ cs)%list)
      | inr (Some p) =>
          let (r, cs) := scan_candidates matter dir rest (posts ++ [p])%list in
          (r, (here ++ cs)%list)
      end
  end.



(** The text of one element of the array of posts: [JSON.stringify] puts
    it one level deep, after a gap of two spaces. *)
Definition element_text (number_to_string : float -> string) (p : jsval)
  : string :=
  match serialize number_to_string "  " "  " p with
  | Some text => text
  | None => "null"
  end.

(** *** Reading a JSON string literal

    The reader of string literals of the JSON grammar, on the bytes of a
    text: it is what a consumer of the output file applies to what [quote]
    wrote.  [read_string] decodes up to the closing quote and returns what
    follows it. *)

Definition hex_value (c : ascii) : option nat :=
  let n := nat_of_ascii c in
  if Nat.leb 48 n && Nat.leb n 57 then Some (n - 48)
  else if Nat.leb 97 n && Nat.leb n 102 then Some (n - 87)
  else if Nat.leb 65 n && Nat.leb n 70 then Some (n - 55)
  else None.

Definition prepend (n : nat) (r : option (string * string))
  : option (string * string) :=
  match r with
  | Some (decoded, rest) => Some (String (ascii_of_nat n) decoded, rest)
  | None => None
  end.

Fixpoint read_string (s : string) : option (string * string) :=
  match s with
  | EmptyString => None
  | String c rest =>
      let n := nat_of_ascii c in
      if Nat.eqb n 34 then Some (EmptyString, rest)
      else if Nat.ltb n 32 then None
      else if Nat.eqb n 92 then
        match rest with
        | EmptyString => None
        | String e rest1 =>
            let m := nat_of_ascii e in
            if Nat.eqb m 34 then prepend 34 (read_string rest1)
            else if Nat.eqb m 92 then prepend 92 (read_string rest1)
            else if Nat.eqb m 47 then prepend 47 (read_string rest1)
            else if Nat.eqb m 98 then prepend 8 (read_string rest1)
            else if Nat.eqb m 102 then prepend 12 (read_string rest1)
            else if Nat.eqb m 110 then prepend 10 (read_string rest1)
            else if Nat.eqb m 114 then prepend 13 (read_string rest1)
            else if Nat.eqb m 116 then prepend 9 (read_string rest1)
            else if Nat.eqb m 117 then
              match rest1 with
              | String h1 (String h2 (String h3 (String h4 rest2))) =>
                  match hex_value h1, hex_value h2, hex_value h3, hex_value h4
                  with
                  | Some a, Some b, Some c', Some d =>
                      let code := 4096 * a + 256 * b + 16 * c' + d in
                      if Nat.ltb code 128
                      then prepend code (read_string rest2)
                      else None
                  | _, _, _, _ => None
                  end
              | _ => None
              end
            else None
        end
      else prepend n (read_string rest)
  end.

Definition JSON_read_string (text : string) : option string :=
  match text with
  | String c rest =>
      if Nat.eqb (nat_of_ascii c) 34 then
        match read_string rest with
        | Some (decoded, EmptyString) => Some decoded
        | _ => None
        end
      else None
  | EmptyString => None
  end.

(** What the test [data.title && data.summary] lets through: the record of
    the folder when both values are truthy, nothing otherwise. *)
Definition validated (slug : string) (title summary : jsval) : list jsval :=
  if to_boolean title && to_boolean summary
  then [post title summary ("/blog/" ++ slug)]
  else [].

(** Reading a record back. *)
Definition field (key : string) (p : jsval) : jsval :=
  match p with
  | JObj props => own_property key props
  | _ => JUndefined
  end.

Definition keys (p : jsval) : list string :=
  match p with
  | JObj props => map fst props
  | _ => []
  end.

Definition url_for (slug : string) : string := "/blog/" ++ slug.

Definition jsval_is_string (v : jsval) (s : string) : bool :=
  match v with
  | JStr s' => String.eqb s' s
  | _ => false
  end.

(** The records of a list that carry the url of the folder [slug]. *)
Definition records_of (slug : string) (posts : list jsval) : list jsval :=
  filter (fun p => jsval_is_string (field "url" p) (url_for slug)) posts.

Definition is_write (c : call) : bool :=
  match c with
  | WriteFileSync _ _ => true
  | _ => false
  end.

(** Whether [writeFileSync] can succeed at a path. *)
Fixpoint writable (p : path) (n : node) : bool :=
  match p with
  | [] =>
      match n with
      | Dir _ _ _ => false
      | File _ w _ => w
      end
  | name :: rest =>
      match n with
      | File _ _ _ => false
      | Dir _ w entries =>
          match find_entry name entries with
          | Some child => writable rest child
          | None =>
              match rest with
              | [] => w
              | _ :: _ => false
              end
          end
      end
  end.

(** ** A sample site

    A stand-in for gray-matter on the handful of documents used in the
    examples below: each text is mapped to the front matter that the
    library reads from it.  Every theorem is proved for an arbitrary
    [matter]; this one only instantiates them. *)

Definition doc (lines : list string) : string := join nl lines.

Definition doc_A : string :=
  doc ["---"; "title: A"; "summary: B"; "url: /elsewhere"; "---"; "Body."].
Definition doc_C : string :=
  doc ["---"; "title: C"; "---"; "Draft."].
Definition doc_plain : string := doc ["No front matter here."].
Definition doc_empty_summary : string :=
  doc ["---"; "title: D"; "summary: ''"; "---"].
Definition doc_zero_title : string :=
  doc ["---"; "title: 0"; "summary: E"; "---"].
Definition doc_broken : string :=
  doc ["---"; "title: [unclosed"; "---"].
Definition doc_F : string :=
  doc ["---"; "title: F"; "summary: G"; "---"].

Definition sample_matter (content : string) : exn + jsval :=
  if String.eqb content doc_A then
    inr (JObj [("title", JStr "A"); ("summary", JStr "B");
               ("url", JStr "/elsewhere")])
  else if String.eqb content doc_C then
    inr (JObj [("title", JStr "C")])
  else if String.eqb content doc_empty_summary then
    inr (JObj [("title", JStr "D"); ("summary", JStr EmptyString)])
  else if String.eqb content doc_zero_title then
    inr (JObj [("title", JNum 0%float); ("summary", JStr "E")])
  else if String.eqb content doc_F then
    inr (JObj [("title", JStr "F"); ("summary", JStr "G")])
  else if String.eqb content doc_broken then
    inl YAMLException
  else inr (JObj []).

(** The text of a Number, for the sample documents: the only number they
    hold is 0. *)
Definition sample_number_to_string (x : float) : string := "0".

Definition file (content : string) : node := File true true content.
Definition dir (entries : list (string * node)) : node := Dir true true entries.

Definition site (blog : list (string * node)) (public : list (string * node))
  : node :=
  dir [("src", dir [("content", dir [("blog", dir blog)])]);
       ("public", dir public)].

Definition blog_two : list (string * node) :=
  [("01-post", dir [("index.md", file doc_A); ("cover.png", file "PNG")]);
   ("README.md", file "notes");
   ("02-draft", dir [("index.md", file doc_C)]);
   ("03-empty", dir [("assets", dir [("index.md", file doc_F)])]);
   ("04-post", dir [("index.md", file doc_F)])].

(** A working directory with a previous artifact and no content root. *)
Definition site_without_root : node :=
  dir [("src", dir [("pages", dir [])]);
       ("public", dir [("posts.json", file "[]")])].

Definition sample_site : node :=
  site blog_two [("posts.json", file "[]")].

Definition post_01 : list (string * node) :=
  [("index.md", file doc_A); ("cover.png", file "PNG")].

Definition data_A : jsval :=
  JObj [("title", JStr "A"); ("summary", JStr "B");
        ("url", JStr "/elsewhere")].

(** A site with a valid post, a post without front matter and a post whose
    document the process may not read; nothing was built before. *)
Definition blog_locked : list (string * node) :=
  [("01-post", dir [("index.md", file doc_A)]);
   ("02-plain", dir [("index.md", file doc_plain)]);
   ("03-locked", dir [("index.md", File false true doc_F)])].

Definition site_locked : node := site blog_locked [].

(** A site with a valid post and a post whose front matter is not valid
    YAML, over a previous build. *)
Definition blog_broken : list (string * node) :=
  [("01-post", dir [("index.md", file doc_A)]);
   ("02-broken", dir [("index.md", file doc_broken)])].

Definition site_broken : node :=
  site blog_broken [("posts.json", file "previous build")].

(** A site whose only post has front matter that is not valid YAML. *)
Definition site_only_broken : node :=
  site [("01-broken", dir [("index.md", file doc_broken)])] [].

(** A site with no valid post: a plain file, a folder without document, a
    draft without summary and a post with an empty summary. *)
Definition blog_drafts : list (string * node) :=
  [("README.md", file "notes");
   ("01-assets", dir [("logo.png", file "PNG")]);
   ("02-draft", dir [("index.md", file doc_C)]);
   ("03-draft", dir [("index.md", file doc_empty_summary)])].

Definition site_drafts : node :=
  site blog_drafts [("posts.json", file "previous build")].

(** The sample site stripped of what the scanner does not look at. *)
Definition blog_bare : list (string * node) :=
  [("01-post", dir [("index.md", file doc_A)]);
   ("02-draft", dir [("index.md", file doc_C)]);
   ("03-empty", dir []);
   ("04-post", dir [("index.md", file doc_F)])].

Definition site_bare : node := site blog_bare [].

(** The text expected for the sample site, line by line. *)
Definition quoted (s : string) : string := dquote ++ s ++ dquote.

Definition sample_artifact : string :=
  doc ["[";
       "  {";
       "    " ++ quoted "title" ++ ": " ++ quoted "A" ++ ",";
       "    " ++ quoted "summary" ++ ": " ++ quoted "B" ++ ",";
       "    " ++ quoted "url" ++ ": " ++ quoted "/blog/01-post";
       "  },";
       "  {";
       "    " ++ quoted "title" ++ ": " ++ quoted "F" ++ ",";
       "    " ++ quoted "summary" ++ ": " ++ quoted "G" ++ ",";
       "    " ++ quoted "url" ++ ": " ++ quoted "/blog/04-post";
       "  }";
       "]"].

(** A site whose content root is an empty directory, and no [public]
    directory to write into. *)
Definition site_empty : node := site [] [].

Definition site_without_public : node :=
  dir [("src", dir [("content", dir [("blog", dir blog_two)])])].

(** An empty content root and no directory to write the output into. *)
Definition site_empty_without_public : node :=
  dir [("src", dir [("content", dir [("blog", dir [])])])].

(** Whether the path [p] leads to or through the path [q] names. *)
Fixpoint is_prefix (p q : path) : bool :=
  match p, q with
  | [], _ => true
  | _ :: _, [] => false
  | a :: p', b :: q' => String.eqb a b && is_prefix p' q'
  end.

Definition is_console_log (c : call) : bool :=
  match c with
  | ConsoleLog _ => true
  | _ => false
  end.

(** Reading back the decimal digits of a natural number. *)
Fixpoint digits_value (s : string) (acc : nat) : option nat :=
  match s with
  | EmptyString => Some acc
  | String c rest =>
      let n := nat_of_ascii c in
      if Nat.leb 48 n && Nat.leb n 57
      then digits_value rest (10 * acc + (n - 48))
      else None
  end.

Definition read_decimal (s : string) : option nat :=
  match s with
  | EmptyString => None
  | String _ _ => digits_value s 0
  end.

(** A site whose second post has a document that the process may not
    read, between two valid posts. *)
Definition blog_locked_middle : list (string * node) :=
  [("01-post", dir [("index.md", file doc_A)]);
   ("02-locked", dir [("index.md", File false true doc_F)]);
   ("03-post", dir [("index.md", file doc_F)])].

Definition site_locked_middle : node := site blog_locked_middle [].

(** The bare site with one more post at the end of the listing, and with
    its listing in another order. *)
Definition blog_grown : list (string * node) :=
  (blog_bare ++ [("05-new", dir [("index.md", file doc_A)])])%list.

Definition blog_shuffled : list (string * node) :=
  [("04-post", dir [("index.md", file doc_F)]);
   ("03-empty", dir []);
   ("01-post", dir [("index.md", file doc_A)]);
   ("02-draft", dir [("index.md", file doc_C)])].

(** ** The blog list component

    The state and the handlers of the component that lists the posts, and
    the filter its effect applies to them.  An entry of the collection is
    known through the three fields of its [data] that the filter reads;
    [toLowerCase] is the method of the language, a parameter here.  A [Set]
    of strings is the list of its members in insertion order.  The sort
    that follows the filter is not part of the model. *)

(** [s.includes(search)]. *)
Fixpoint includes (s search : string) {struct s} : bool :=
  if String.prefix search s then true
  else match s with
       | EmptyString => false
       | String _ rest => includes rest search
       end.

(** [set.has(x)] and [new Set(xs)]. *)
Definition has (set : list string) (x : string) : bool :=
  existsb (String.eqb x) set.

Definition new_Set (xs : list string) : list string :=
  fold_left (fun set x => if has set x then set else (set ++ [x])%list) xs [].

(** The signals that the handlers write. *)
Record BlogState : Type := MkBlogState {
  filterSet : list string;
  isFilterOpen : bool;
  searchQuery : string;
  sortBy : string
}.

Definition toggleTag (tag : string) (st : BlogState) : BlogState :=
  let prev := filterSet st in
  MkBlogState
    (new_Set (if has prev tag
              then filter (fun t => negb (String.eqb t tag)) prev
              else (prev ++ [tag])%list))
    (isFilterOpen st) (searchQuery st) (sortBy st).

Definition toggleFilterMenu (st : BlogState) : BlogState :=
  MkBlogState (filterSet st) (negb (isFilterOpen st)) (searchQuery st)
              (sortBy st).

Definition clearAllFilters (st : BlogState) : BlogState :=
  MkBlogState (new_Set []) (isFilterOpen st) EmptyString (sortBy st).

Definition handleSearchInput (value : string) (st : BlogState) : BlogState :=
  MkBlogState (filterSet st) (isFilterOpen st) value (sortBy st).

Definition handleSortChange (value : string) (st : BlogState) : BlogState :=
  MkBlogState (filterSet st) (isFilterOpen st) (searchQuery st) value.

Section BlogFilter.

Variable toLowerCase : string -> string.

Variable entry : Type.
Variable data_title : entry -> string.
Variable data_summary : entry -> option string.
Variable data_tags : entry -> list string.

(** [entry.data.tags.some(tag => tag.toLowerCase() === value.toLowerCase())]. *)
Definition has_tag (e : entry) (value : string) : bool :=
  existsb (fun tag => String.eqb (toLowerCase tag) (toLowerCase value))
          (data_tags e).

Definition tagMatch (st : BlogState) (e : entry) : bool :=
  forallb (has_tag e) (filterSet st).

Definition searchMatch (st : BlogState) (e : entry) : bool :=
  let searchLower := toLowerCase (searchQuery st) in
  String.eqb searchLower EmptyString
  || includes (toLowerCase (data_title e)) searchLower
  || match data_summary e with
     | Some summary => includes (toLowerCase summary) searchLower
     | None => false
     end
  || existsb (fun tag => includes (toLowerCase tag) searchLower) (data_tags e).

(** The entries that the effect keeps, before it sorts them. *)
Definition filteredPosts (data : list entry) (st : BlogState) : list entry :=
  filter (fun e => tagMatch st e && searchMatch st e) data.

End BlogFilter.

(** A sample collection: lower case on the letters A to Z, three entries. *)
Definition lower_char (c : ascii) : ascii :=
  let n := nat_of_ascii c in
  if Nat.leb 65 n && Nat.leb n 90 then ascii_of_nat (n + 32) else c.

Fixpoint ascii_lower (s : string) : string :=
  match s with
  | EmptyString => EmptyString
  | String c rest => String (lower_char c) (ascii_lower rest)
  end.

Record SampleEntry : Type := MkSampleEntry {
  sample_title : string;
  sample_summary : option string;
  sample_tags : list string
}.

Definition entry_tasks : SampleEntry :=
  MkSampleEntry "Task vs ValueTask in C#" (Some "A clear and practical guide")
                ["dotnet"; "csharp"; "async"].
Definition entry_channels : SampleEntry :=
  MkSampleEntry "Channels in C#" None ["csharp"; "Concurrency"].
Definition entry_docker : SampleEntry :=
  MkSampleEntry "Installing Docker" (Some "Docker for .NET 8 and React")
                ["Docker"; "React"].

Definition sample_collection : list SampleEntry :=
  [entry_tasks; entry_channels; entry_docker].

Definition initial_state : BlogState :=
  MkBlogState (new_Set []) false EmptyString "date-desc".

Definition sample_filteredPosts (st : BlogState) : list SampleEntry :=
  filteredPosts ascii_lower SampleEntry sample_title sample_summary
                sample_tags sample_collection st.

(** * Properties *)

(** ** The monadic code computes [scan] *)

Section Refinement.

Variable matter : string -> exn + jsval.
Variable number_to_string : float -> string.

Lemma visit_spec (dir : path) (folder : Dirent) (posts : list jsval)
    (w : world) :
  let index := resolve (index_path dir (name folder)) (fs w) in
  visit matter dir folder posts w =
    (push (unit_verdict matter (name folder) index) posts,
     World (fs w)
           (calls w ++ unit_calls (index_path dir (name folder)) index)).
Proof.
  destruct w as [t cs]. cbn -[resolve to_boolean].
  unfold visit, bind, existsSync, readFileSync, record, lift, ret, throw,
    index_path.
  cbn -[resolve to_boolean].
  destruct (resolve (path_join dir [name folder; "index.md"]) t)
    as [e | [r wr content | r wr entries]] eqn:Hres;
    cbn -[resolve to_boolean]; rewrite ?Hres; cbn -[resolve to_boolean].
  - reflexivity.
  - rewrite <- app_assoc. cbn [app].
    destruct r; cbn -[to_boolean]; [ | reflexivity ].
    unfold document_verdict.
    destruct (matter content) as [e | data]; cbn -[to_boolean];
      [ reflexivity | ].
    destruct (get_property data "title") as [e | title] eqn:Ht;
      cbn -[to_boolean]; [ reflexivity | ].
    destruct (to_boolean title) eqn:Htt; cbn -[to_boolean].
    + destruct (get_property data "summary") as [e | summary] eqn:Hs;
        cbn -[to_boolean]; [ reflexivity | ].
      destruct (to_boolean summary); reflexivity.
    + rewrite Htt. reflexivity.
  - rewrite <- app_assoc. reflexivity.
Qed.

Lemma for_of_visit_spec (dir : path) (folders : list Dirent) :
  forall (posts : list jsval) (w : world),
    for_of folders (visit matter dir) posts w =
      (fst (scan_units matter (fs w) dir (map name folders) posts),
       World (fs w)
             (calls w
                ++ snd (scan_units matter (fs w) dir (map name folders) posts))).
Proof.
  induction folders as [ | folder rest IH]; intros posts [t cs].
  - cbn. rewrite app_nil_r. reflexivity.
  - cbn [for_of map scan_units]. unfold bind at 1.
    rewrite visit_spec. cbn [fs calls].
    destruct (unit_verdict matter (name folder)
                (resolve (index_path dir (name folder)) t))
      as [e | [p | ]]; cbn [push].
    + reflexivity.
    + rewrite IH. cbn [fs calls].
      destruct (scan_units matter t dir (map name rest) (posts ++ [p]));
        cbn [fst snd]. rewrite app_assoc. reflexivity.
    + rewrite IH. cbn [fs calls].
      destruct (scan_units matter t dir (map name rest) posts);
        cbn [fst snd]. rewrite app_assoc. reflexivity.
Qed.

Lemma getPostsFromDir_spec (dir : path) (w : world) :
  getPostsFromDir matter dir w =
    (fst (scan matter (fs w) dir),
     World (fs w) (calls w ++ snd (scan matter (fs w) dir))).
Proof.
  destruct w as [t cs]. unfold getPostsFromDir, scan, readdirSync, record.
  unfold bind at 1. unfold bind at 1. cbn [fs calls].
  destruct (resolve dir t) as [e | [r wr content | r wr entries]];
    try reflexivity.
  destruct r; [ | reflexivity ].
  rewrite for_of_visit_spec. cbn [fs calls].
  unfold folder_names.
  destruct (scan_units matter t dir
              (map name (filter isDirectory (map dirent_of entries))) []);
    cbn [fst snd]. rewrite <- app_assoc. reflexivity.
Qed.

End Refinement.

(** ** The writer *)

Lemma find_entry_replace_same (k : string) (n' : node)
    (entries : list (string * node)) :
  find_entry k entries <> None ->
  find_entry k (replace_entry k n' entries) = Some n'.
Proof.
  induction entries as [ | [k0 n0] rest IH]; cbn; intros H.
  - congruence.
  - destruct (String.eqb k0 k) eqn:E; cbn; rewrite E; auto.
Qed.

Lemma find_entry_replace_other (k k' : string) (n' : node)
    (entries : list (string * node)) :
  k' <> k ->
  find_entry k' (replace_entry k n' entries) = find_entry k' entries.
Proof.
  intros Hne. induction entries as [ | [k0 n0] rest IH]; cbn.
  - reflexivity.
  - destruct (String.eqb k0 k) eqn:E; cbn.
    + apply String.eqb_eq in E. subst k0.
      destruct (String.eqb k k') eqn:E'; [ | reflexivity ].
      apply String.eqb_eq in E'. congruence.
    + rewrite IH. reflexivity.
Qed.

Lemma replace_entry_twice (k : string) (n1 n2 : node)
    (entries : list (string * node)) :
  replace_entry k n2 (replace_entry k n1 entries) = replace_entry k n2 entries.
Proof.
  induction entries as [ | [k0 n0] rest IH]; cbn.
  - reflexivity.
  - destruct (String.eqb k0 k) eqn:E; cbn; rewrite E.
    + reflexivity.
    + rewrite IH. reflexivity.
Qed.

Lemma find_entry_app_new (k k' : string) (n : node)
    (entries : list (string * node)) :
  find_entry k' (entries ++ [(k, n)]) =
    match find_entry k' entries with
    | Some x => Some x
    | None => if String.eqb k k' then Some n else None
    end.
Proof.
  induction entries as [ | [k0 n0] rest IH]; cbn.
  - reflexivity.
  - destruct (String.eqb k0 k'); auto.
Qed.

Lemma replace_entry_app_new (k : string) (n n' : node)
    (entries : list (string * node)) :
  find_entry k entries = None ->
  replace_entry k n' (entries ++ [(k, n)]) = (entries ++ [(k, n')])%list.
Proof.
  induction entries as [ | [k0 n0] rest IH]; cbn.
  - rewrite String.eqb_refl. reflexivity.
  - destruct (String.eqb k0 k); [ discriminate | ].
    intros H. rewrite IH by assumption. reflexivity.
Qed.

(** [writable] decides whether the write succeeds; the text written plays no
    part in it. *)
Lemma write_at_writable (p : path) (data : string) :
  forall t : node,
    writable p t = true <-> exists t', write_at p data t = inr t'.
Proof.
  induction p as [ | k rest IH]; intros [r w content | r w entries]; cbn.
  - destruct w; split; intros H; eauto; try discriminate.
    destruct H as [t' H]; discriminate.
  - split; [ discriminate | intros [t' H]; discriminate ].
  - split; [ discriminate | intros [t' H]; discriminate ].
  - destruct (find_entry k entries) as [child | ] eqn:Hfind.
    + rewrite IH. split.
      * intros [c' Hc]. rewrite Hc. eauto.
      * destruct (write_at rest data child) as [e | c'];
          [ intros [t' H]; discriminate | eauto ].
    + destruct rest as [ | k' rest'].
      * destruct w; split; intros H; eauto; try discriminate.
        destruct H as [t' H]; discriminate.
      * split; [ discriminate | intros [t' H]; discriminate ].
Qed.

(** After a successful write the path holds a file with the text written. *)
Lemma resolve_write_at (p : path) (data : string) :
  forall t t' : node,
    write_at p data t = inr t' ->
    exists r w, resolve p t' = inr (File r w data).
Proof.
  induction p as [ | k rest IH]; intros [r w content | r w entries] t'; cbn;
    try discriminate.
  - destruct w; [ | discriminate ]. intros H; injection H as <-. eauto.
  - destruct (find_entry k entries) as [child | ] eqn:Hfind.
    + destruct (write_at rest data child) as [e | c'] eqn:Hw;
        [ discriminate | ].
      intros H; injection H as <-. cbn.
      rewrite find_entry_replace_same by congruence. eauto.
    + destruct rest as [ | k' rest']; [ | discriminate ].
      destruct w; [ | discriminate ].
      intros H; injection H as <-. cbn.
      rewrite find_entry_app_new, Hfind, String.eqb_refl. cbn. eauto.
Qed.

(** Writing the same text again changes nothing. *)
Lemma write_at_twice (p : path) (data : string) :
  forall t t' : node,
    write_at p data t = inr t' -> write_at p data t' = inr t'.
Proof.
  induction p as [ | k rest IH]; intros [r w content | r w entries] t'; cbn;
    try discriminate.
  - destruct w; [ | discriminate ]. intros H; injection H as <-. reflexivity.
  - destruct (find_entry k entries) as [child | ] eqn:Hfind.
    + destruct (write_at rest data child) as [e | c'] eqn:Hw;
        [ discriminate | ].
      intros H; injection H as <-. cbn.
      rewrite find_entry_replace_same by congruence.
      rewrite (IH _ _ Hw), replace_entry_twice. reflexivity.
    + destruct rest as [ | k' rest']; [ | discriminate ].
      destruct w; [ | discriminate ].
      intros H; injection H as <-. cbn.
      rewrite find_entry_app_new, Hfind, String.eqb_refl. cbn.
      rewrite replace_entry_app_new by assumption. reflexivity.
Qed.

(** A write below one entry of the working directory leaves every path
    below another entry as it was. *)
Lemma resolve_write_at_other (k k' : string) (p q : path) (data : string)
    (t t' : node) :
  k' <> k ->
  write_at (k :: p) data t = inr t' ->
  resolve (k' :: q) t' = resolve (k' :: q) t.
Proof.
  intros Hne. destruct t as [r w content | r w entries]; cbn;
    [ discriminate | ].
  destruct (find_entry k entries) as [child | ] eqn:Hfind.
  - destruct (write_at p data child) as [e | c']; [ discriminate | ].
    intros H; injection H as <-. cbn.
    rewrite find_entry_replace_other by assumption. reflexivity.
  - destruct p as [ | k0 p0]; [ | discriminate ].
    destruct w; [ | discriminate ].
    intros H; injection H as <-. cbn.
    rewrite find_entry_app_new.
    destruct (find_entry k' entries); [ reflexivity | ].
    destruct (String.eqb k k') eqn:E; [ | reflexivity ].
    apply String.eqb_eq in E. congruence.
Qed.

(** ** The whole run *)

Section Run.

Variable matter : string -> exn + jsval.
Variable number_to_string : float -> string.

Lemma stringify_posts (posts : list jsval) :
  JSON_stringify number_to_string (JArr posts) 2 =
    Some (posts_json number_to_string posts).
Proof.
  unfold posts_json.
  destruct (JSON_stringify number_to_string (JArr posts) 2) eqn:E;
    [ reflexivity | ].
  unfold JSON_stringify in E. cbn -[join] in E.
  destruct (map _ posts) in E; discriminate.
Qed.

Lemma posts_json_nil : posts_json number_to_string [] = "[]".
Proof. reflexivity. Qed.

Lemma run_spec (t : node) :
  run matter number_to_string t =
    match scan matter t postsDir with
    | (inl _, cs) => (1, World t cs)
    | (inr posts, cs) =>
        let text := posts_json number_to_string posts in
        match write_at outputFile text t with
        | inl _ => (1, World t (cs ++ [WriteFileSync outputFile text]))
        | inr t' =>
            (0, World t' (cs ++ [WriteFileSync outputFile text;
                                 ConsoleLog (success_line posts)]))
        end
    end.
Proof.
  unfold run, main. unfold bind at 1. rewrite getPostsFromDir_spec.
  cbn [fs calls app].
  destruct (scan matter t postsDir) as [[e | posts] cs]; cbn [fst snd].
  - reflexivity.
  - rewrite stringify_posts.
    cbv [bind ret writeFileSync console_log record fs calls].
    fold (success_line posts).
    destruct (write_at outputFile (posts_json number_to_string posts) t)
      as [e | t'].
    + reflexivity.
    + rewrite <- app_assoc. reflexivity.
Qed.

End Run.

(** ** The fatal path *)

(** C4.  When the content root does not exist, the run ends with a non-zero
    exit status, makes no write call, and leaves the whole tree, and so the
    output file, exactly as it was: nothing is created and a previous
    artifact keeps its bytes. *)
Theorem missing_root_is_fatal (matter : string -> exn + jsval)
    (number_to_string : float -> string) (t : node) (e : exn) :
  resolve postsDir t = inl e ->
  exit_status matter number_to_string t = 1
  /\ final_fs matter number_to_string t = t
  /\ artifact (final_fs matter number_to_string t) = artifact t
  /\ existsb is_write (trace matter number_to_string t) = false.
Proof.
  intros Hroot. unfold exit_status, final_fs, trace.
  rewrite run_spec. unfold scan. rewrite Hroot. cbn. auto.
Qed.

Lemma missing_root_is_fatal_witness :
  resolve postsDir site_without_root = inl ENOENT
  /\ exit_status sample_matter sample_number_to_string site_without_root = 1
  /\ final_fs sample_matter sample_number_to_string site_without_root
     = site_without_root
  /\ artifact (final_fs sample_matter sample_number_to_string site_without_root)
     = artifact site_without_root
  /\ existsb is_write (trace sample_matter sample_number_to_string
                         site_without_root) = false.
Proof.
  split; [ reflexivity | ].
  apply (missing_root_is_fatal sample_matter sample_number_to_string
           site_without_root ENOENT).
  reflexivity.
Defined.

(** ** The loop *)

Section Loop.

Variable matter : string -> exn + jsval.

Lemma scan_units_returns (t : node) (dir : path) (slugs : list string) :
  forall posts0 posts : list jsval,
    fst (scan_units matter t dir slugs posts0) = inr posts <->
    forallb (fun slug => negb (throws matter t dir slug)) slugs = true
    /\ posts = (posts0 ++ included matter t dir slugs)%list.
Proof.
  induction slugs as [ | slug rest IH]; intros posts0 posts.
  - cbn. rewrite app_nil_r. split.
    + intros H; injection H as <-. auto.
    + intros [_ ->]. reflexivity.
  - cbn [scan_units forallb included flat_map].
    unfold throws at 1. unfold verdict_at at 1 2.
    destruct (unit_verdict matter slug (resolve (index_path dir slug) t))
      as [e | [p | ]]; cbn [negb andb record_of_verdict app].
    + split; [ discriminate | intros [H _]; discriminate ].
    + specialize (IH (posts0 ++ [p])%list posts).
      destruct (scan_units matter t dir rest (posts0 ++ [p])); cbn [fst] in *.
      rewrite IH. fold (included matter t dir rest).
      rewrite <- app_assoc. reflexivity.
    + specialize (IH posts0 posts).
      destruct (scan_units matter t dir rest posts0); cbn [fst] in *.
      rewrite IH. reflexivity.
Qed.

Lemma scan_units_throws (t : node) (dir : path) (slugs : list string) :
  forall posts0 : list jsval,
    existsb (throws matter t dir) slugs = true ->
    exists e, fst (scan_units matter t dir slugs posts0) = inl e.
Proof.
  induction slugs as [ | slug rest IH]; intros posts0; cbn [existsb].
  - discriminate.
  - cbn [scan_units]. unfold throws at 1. unfold verdict_at.
    destruct (unit_verdict matter slug (resolve (index_path dir slug) t))
      as [e | [p | ]]; cbn [orb].
    + intros _. exists e. reflexivity.
    + intros H. destruct (IH (posts0 ++ [p])%list H) as [e He].
      destruct (scan_units matter t dir rest (posts0 ++ [p])); eauto.
    + intros H. destruct (IH posts0 H) as [e He].
      destruct (scan_units matter t dir rest posts0); eauto.
Qed.

(** The calls of the loop: those of the turns it runs, in order; all of them
    when it returns. *)
Lemma scan_units_calls (t : node) (dir : path) (slugs : list string) :
  forall posts0 posts : list jsval,
    fst (scan_units matter t dir slugs posts0) = inr posts ->
    snd (scan_units matter t dir slugs posts0) = flat_map (calls_at t dir) slugs.
Proof.
  induction slugs as [ | slug rest IH]; intros posts0 posts.
  - reflexivity.
  - cbn [scan_units flat_map]. unfold calls_at at 1.
    destruct (unit_verdict matter slug (resolve (index_path dir slug) t))
      as [e | [p | ]].
    + discriminate.
    + specialize (IH (posts0 ++ [p])%list posts).
      destruct (scan_units matter t dir rest (posts0 ++ [p])); cbn [fst snd] in *.
      intros H. rewrite IH by assumption. reflexivity.
    + specialize (IH posts0 posts).
      destruct (scan_units matter t dir rest posts0); cbn [fst snd] in *.
      intros H. rewrite IH by assumption. reflexivity.
Qed.

Lemma unit_calls_no_write (p : path) (index : exn + node) :
  existsb is_write (unit_calls p index) = false.
Proof. destruct index; reflexivity. Qed.

Lemma scan_units_no_write (t : node) (dir : path) (slugs : list string) :
  forall posts0 : list jsval,
    existsb is_write (snd (scan_units matter t dir slugs posts0)) = false.
Proof.
  induction slugs as [ | slug rest IH]; intros posts0.
  - reflexivity.
  - cbn [scan_units].
    destruct (unit_verdict matter slug (resolve (index_path dir slug) t))
      as [e | [p | ]]; cbn [snd].
    + apply unit_calls_no_write.
    + specialize (IH (posts0 ++ [p])%list).
      destruct (scan_units matter t dir rest (posts0 ++ [p])); cbn [snd] in *.
      rewrite existsb_app, unit_calls_no_write, IH. reflexivity.
    + specialize (IH posts0).
      destruct (scan_units matter t dir rest posts0); cbn [snd] in *.
      rewrite existsb_app, unit_calls_no_write, IH. reflexivity.
Qed.

Lemma scan_no_write (t : node) (dir : path) :
  existsb is_write (snd (scan matter t dir)) = false.
Proof.
  unfold scan.
  destruct (resolve dir t) as [e | [r w content | r w entries]];
    try reflexivity.
  destruct r; [ | reflexivity ].
  pose proof (scan_units_no_write t dir (folder_names entries) []) as H.
  destruct (scan_units matter t dir (folder_names entries) []); cbn [snd] in *.
  cbn. exact H.
Qed.

(** When the scan returns, the root is a listable directory and the array
    holds the records of the included folders, in enumeration order. *)
Lemma scan_returns (t : node) (dir : path) (posts : list jsval) :
  fst (scan matter t dir) = inr posts <->
  exists w entries,
    resolve dir t = inr (Dir true w entries)
    /\ forallb (fun slug => negb (throws matter t dir slug))
               (folder_names entries) = true
    /\ posts = included matter t dir (folder_names entries).
Proof.
  unfold scan.
  destruct (resolve dir t) as [e | [r w content | r w entries]].
  - split; [ discriminate | intros (w & es & H & _); discriminate ].
  - split; [ discriminate | intros (w' & es & H & _); discriminate ].
  - destruct r.
    + pose proof (scan_units_returns t dir (folder_names entries) [] posts) as H.
      destruct (scan_units matter t dir (folder_names entries) []);
        cbn [fst] in *.
      rewrite H. cbn [app]. split.
      * intros [H1 H2]. exists w, entries. auto.
      * intros (w' & es & Heq & H1 & H2). injection Heq as <- <-. auto.
    + split; [ discriminate | intros (w' & es & H & _); discriminate ].
Qed.

End Loop.

(** ** Paths and directory listings *)

Lemma resolve_app (p q : path) :
  forall t : node,
    resolve (p ++ q)%list t =
      match resolve p t with
      | inl e => inl e
      | inr n => resolve q n
      end.
Proof.
  induction p as [ | k rest IH]; intros t; cbn.
  - reflexivity.
  - destruct t as [r w content | r w entries]; [ reflexivity | ].
    destruct (find_entry k entries); [ apply IH | reflexivity ].
Qed.

Lemma find_entry_In (k : string) (n : node) (entries : list (string * node)) :
  NoDup (map fst entries) -> In (k, n) entries -> find_entry k entries = Some n.
Proof.
  induction entries as [ | [k0 n0] rest IH]; cbn; intros Hnd Hin.
  - contradiction.
  - inversion Hnd as [ | ? ? Hnot Hnd']; subst.
    destruct Hin as [Heq | Hin].
    + injection Heq as -> ->. rewrite String.eqb_refl. reflexivity.
    + destruct (String.eqb k0 k) eqn:E.
      * apply String.eqb_eq in E. subst k0. exfalso. apply Hnot.
        change k with (fst (k, n)). apply in_map. assumption.
      * auto.
Qed.

Lemma find_entry_Some_In (k : string) (n : node)
    (entries : list (string * node)) :
  find_entry k entries = Some n -> In (k, n) entries.
Proof.
  induction entries as [ | [k0 n0] rest IH]; cbn.
  - discriminate.
  - destruct (String.eqb k0 k) eqn:E.
    + apply String.eqb_eq in E. intros H; injection H as ->. subst. auto.
    + auto.
Qed.

Lemma folder_names_filter (entries : list (string * node)) :
  folder_names entries = map fst (filter (fun e => is_dir (snd e)) entries).
Proof.
  unfold folder_names.
  induction entries as [ | [k n] rest IH]; cbn.
  - reflexivity.
  - destruct (is_dir n); cbn; rewrite IH; reflexivity.
Qed.

Lemma In_folder_names (slug : string) (entries : list (string * node)) :
  In slug (folder_names entries) <->
  exists r w sub, In (slug, Dir r w sub) entries.
Proof.
  rewrite folder_names_filter, in_map_iff. split.
  - intros [[k n] [Hk Hin]]. apply filter_In in Hin. cbn in *. subst k.
    destruct Hin as [Hin Hdir]. destruct n as [ | r w sub];
      [ discriminate | eauto ].
  - intros (r & w & sub & Hin). exists (slug, Dir r w sub). split;
      [ reflexivity | ]. apply filter_In. auto.
Qed.

Lemma NoDup_folder_names (entries : list (string * node)) :
  NoDup (map fst entries) -> NoDup (folder_names entries).
Proof.
  rewrite folder_names_filter.
  induction entries as [ | [k n] rest IH]; cbn; intros Hnd.
  - constructor.
  - inversion Hnd as [ | ? ? Hnot Hnd']; subst.
    destruct (is_dir n); cbn; auto.
    constructor; auto.
    intros Hin. apply Hnot. apply in_map_iff in Hin.
    destruct Hin as [e [He Hin]]. apply filter_In in Hin.
    apply in_map_iff. exists e. tauto.
Qed.

(** Where the [index.md] path of a direct subdirectory leads. *)
Lemma resolve_index_path (t : node) (dir : path) (slug : string)
    (r w : bool) (entries : list (string * node)) (r' w' : bool)
    (sub : list (string * node)) :
  resolve dir t = inr (Dir r w entries) ->
  NoDup (map fst entries) ->
  In (slug, Dir r' w' sub) entries ->
  resolve (index_path dir slug) t =
    match find_entry "index.md" sub with
    | Some n => inr n
    | None => inl ENOENT
    end.
Proof.
  intros Hroot Hnd Hin. unfold index_path, path_join.
  rewrite resolve_app, Hroot. cbn.
  rewrite (find_entry_In _ _ _ Hnd Hin).
  destruct (find_entry "index.md" sub); reflexivity.
Qed.

(** ** Records *)

Lemma url_for_injective (a b : string) : url_for a = url_for b -> a = b.
Proof. unfold url_for. cbn. intros H. injection H. auto. Qed.

Section Records.

Variable matter : string -> exn + jsval.

(** A folder is included exactly when its document is a readable file whose
    front matter has a truthy [title] and a truthy [summary]; the record is
    made of these two values and of the url of the folder. *)
Lemma unit_verdict_included (slug : string) (index : exn + node) (p : jsval) :
  unit_verdict matter slug index = inr (Some p) <->
  exists w content data title summary,
    index = inr (File true w content)
    /\ matter content = inr data
    /\ get_property data "title" = inr title
    /\ get_property data "summary" = inr summary
    /\ to_boolean title = true
    /\ to_boolean summary = true
    /\ p = post title summary (url_for slug).
Proof.
  split.
  - destruct index as [e | [r w content | r w entries]]; cbn;
      try discriminate.
    destruct r; [ | discriminate ]. unfold document_verdict.
    destruct (matter content) as [e | data] eqn:Hm; [ discriminate | ].
    destruct (get_property data "title") as [e | title] eqn:Ht;
      [ discriminate | ].
    destruct (to_boolean title) eqn:Htt; [ | discriminate ].
    destruct (get_property data "summary") as [e | summary] eqn:Hs;
      [ discriminate | ].
    destruct (to_boolean summary) eqn:Hss; [ | discriminate ].
    intros H; injection H as <-.
    exists w, content, data, title, summary. auto 10.
  - intros (w & content & data & title & summary
            & -> & Hm & Ht & Hs & Htt & Hss & ->).
    cbn. unfold document_verdict. rewrite Hm, Ht, Htt, Hs, Hss. reflexivity.
Qed.

(** The verdict on a readable document whose front matter was read. *)
Lemma unit_verdict_document (slug : string) (w : bool) (content : string)
    (data title summary : jsval) :
  matter content = inr data ->
  get_property data "title" = inr title ->
  get_property data "summary" = inr summary ->
  unit_verdict matter slug (inr (File true w content)) =
    inr (if to_boolean title && to_boolean summary
         then Some (post title summary (url_for slug))
         else None).
Proof.
  intros Hm Ht Hs. cbn. unfold document_verdict. rewrite Hm, Ht.
  destruct (to_boolean title); [ | reflexivity ].
  rewrite Hs. destruct (to_boolean summary); reflexivity.
Qed.

Lemma record_url (slug : string) (index : exn + node) (p : jsval) :
  unit_verdict matter slug index = inr (Some p) ->
  field "url" p = JStr (url_for slug).
Proof.
  intros H. apply unit_verdict_included in H.
  destruct H as (w & content & data & title & summary & _ & _ & _ & _ & _ & _ & ->).
  reflexivity.
Qed.

Lemma records_of_verdict (t : node) (dir : path) (slug slug' : string) :
  records_of slug (record_of_verdict (verdict_at matter t dir slug')) =
    if String.eqb slug' slug
    then record_of_verdict (verdict_at matter t dir slug')
    else [].
Proof.
  unfold verdict_at.
  destruct (unit_verdict matter slug' (resolve (index_path dir slug') t))
    as [e | [p | ]] eqn:Hv; cbn [record_of_verdict];
    try (destruct (String.eqb slug' slug); reflexivity).
  cbn [records_of filter]. rewrite (record_url _ _ _ Hv).
  cbn [jsval_is_string].
  destruct (String.eqb slug' slug) eqn:E.
  - apply String.eqb_eq in E. subst. rewrite String.eqb_refl. reflexivity.
  - destruct (String.eqb (url_for slug') (url_for slug)) eqn:E';
      [ | reflexivity ].
    apply String.eqb_eq, url_for_injective in E'.
    apply String.eqb_neq in E. contradiction.
Qed.

Lemma records_of_app (slug : string) (a b : list jsval) :
  records_of slug (a ++ b)%list = (records_of slug a ++ records_of slug b)%list.
Proof. apply filter_app. Qed.

Lemma records_of_included_absent (t : node) (dir : path) (slug : string)
    (slugs : list string) :
  ~ In slug slugs -> records_of slug (included matter t dir slugs) = [].
Proof.
  induction slugs as [ | s rest IH]; cbn [included flat_map]; intros Hnot.
  - reflexivity.
  - fold (included matter t dir rest).
    rewrite records_of_app, records_of_verdict, IH.
    + destruct (String.eqb s slug) eqn:E; [ | reflexivity ].
      apply String.eqb_eq in E. subst. exfalso. apply Hnot. left. reflexivity.
    + intros Hin. apply Hnot. right. assumption.
Qed.

(** With pairwise distinct folder names, the records that carry the url of a
    folder are the records collected from that folder. *)
Lemma records_of_included (t : node) (dir : path) (slug : string)
    (slugs : list string) :
  NoDup slugs -> In slug slugs ->
  records_of slug (included matter t dir slugs) =
    record_of_verdict (verdict_at matter t dir slug).
Proof.
  induction slugs as [ | s rest IH]; cbn [included flat_map]; intros Hnd Hin.
  - contradiction.
  - fold (included matter t dir rest).
    inversion Hnd as [ | ? ? Hnot Hnd']; subst.
    rewrite records_of_app, records_of_verdict.
    destruct (String.eqb s slug) eqn:E.
    + apply String.eqb_eq in E. subst s.
      rewrite records_of_included_absent by assumption. apply app_nil_r.
    + destruct Hin as [Heq | Hin].
      * subst. rewrite String.eqb_refl in E. discriminate.
      * cbn [app]. auto.
Qed.

End Records.

(** ** Runs that complete *)

Ltac distinct_names :=
  repeat (constructor; [ cbn; intuition discriminate | ]); constructor.

Section Completion.

Variable matter : string -> exn + jsval.
Variable number_to_string : float -> string.

(** The run exits with status 0 exactly when the scan returns and the write
    succeeds; the output file then holds the text of the array returned. *)
Lemma run_completes (t : node) :
  exit_status matter number_to_string t = 0 <->
  exists posts t',
    fst (scan matter t postsDir) = inr posts
    /\ write_at outputFile (posts_json number_to_string posts) t = inr t'
    /\ run matter number_to_string t =
         (0, World t' (snd (scan matter t postsDir)
                         ++ [WriteFileSync outputFile
                               (posts_json number_to_string posts);
                             ConsoleLog (success_line posts)])).
Proof.
  unfold exit_status. rewrite run_spec.
  destruct (scan matter t postsDir) as [[e | posts] cs]; cbn [fst snd].
  - split; [ discriminate | intros (posts & t' & H & _); discriminate ].
  - cbv zeta.
    destruct (write_at outputFile (posts_json number_to_string posts) t)
      as [e | t'] eqn:Hw; cbn [fst].
    + split; [ discriminate | ].
      intros (posts' & t' & H & Hw' & _). injection H as <-. congruence.
    + split; [ intros _ | reflexivity ]. exists posts, t'. auto.
Qed.

Lemma artifact_written (t t' : node) (text : string) :
  write_at outputFile text t = inr t' -> artifact t' = Some text.
Proof.
  intros H. destruct (resolve_write_at _ _ _ _ H) as (r & w & Hres).
  unfold artifact. rewrite Hres. reflexivity.
Qed.

(** What a completed run leaves: the array returned by [getPostsFromDir],
    which holds the records of the included folders of the root in
    enumeration order, and its text in the output file. *)
Lemma completed_run (t : node) :
  exit_status matter number_to_string t = 0 ->
  exists posts w entries,
    fst (getPostsFromDir matter postsDir (World t [])) = inr posts
    /\ artifact (final_fs matter number_to_string t)
       = Some (posts_json number_to_string posts)
    /\ resolve postsDir t = inr (Dir true w entries)
    /\ forallb (fun slug => negb (throws matter t postsDir slug))
               (folder_names entries) = true
    /\ posts = included matter t postsDir (folder_names entries).
Proof.
  intros H. apply run_completes in H.
  destruct H as (posts & t' & Hscan & Hw & Hrun).
  pose proof Hscan as Hs. apply scan_returns in Hs.
  destruct Hs as (w & entries & Hroot & Hok & Hposts).
  exists posts, w, entries. rewrite getPostsFromDir_spec. cbn [fs fst].
  unfold final_fs. rewrite Hrun. cbn [snd fs].
  rewrite (artifact_written _ _ _ Hw). auto.
Qed.

End Completion.

(** ** When a run completes *)

Lemma run_succeeds (matter : string -> exn + jsval)
    (number_to_string : float -> string) (t : node) (w : bool)
    (entries : list (string * node)) :
  resolve postsDir t = inr (Dir true w entries) ->
  (forall slug, In slug (folder_names entries) ->
                throws matter t postsDir slug = false) ->
  writable outputFile t = true ->
  exit_status matter number_to_string t = 0.
Proof.
  intros Hroot Hok Hw. apply run_completes.
  assert (Hscan : fst (scan matter t postsDir)
                  = inr (included matter t postsDir (folder_names entries))).
  { apply scan_returns. exists w, entries.
    split; [ assumption | ]. split; [ | reflexivity ].
    apply forallb_forall. intros slug Hin. rewrite Hok by assumption.
    reflexivity. }
  apply (write_at_writable outputFile
           (posts_json number_to_string
              (included matter t postsDir (folder_names entries)))) in Hw.
  destruct Hw as [t' Hw].
  exists (included matter t postsDir (folder_names entries)), t'.
  split; [ assumption | ]. split; [ assumption | ].
  rewrite run_spec.
  destruct (scan matter t postsDir) as [res cs]. cbn [fst snd] in *.
  subst res. cbv zeta. rewrite Hw. reflexivity.
Qed.

Lemma failed_run_changes_nothing (matter : string -> exn + jsval)
    (number_to_string : float -> string) (t : node) :
  exit_status matter number_to_string t <> 0 ->
  final_fs matter number_to_string t = t.
Proof.
  unfold exit_status, final_fs. rewrite run_spec.
  destruct (scan matter t postsDir) as [[e | posts] cs]; cbn [fst snd fs].
  - reflexivity.
  - cbv zeta.
    destruct (write_at outputFile (posts_json number_to_string posts) t);
      cbn [fst snd fs]; [ reflexivity | intros H; contradiction H; reflexivity ].
Qed.

(** ** Validation *)

(** C1, as the script behaves.  Take a direct subdirectory of the content
    root whose [index.md] is a readable file, and the [title] and [summary]
    that its front matter holds.  The turn of the loop for the subdirectory
    pushes exactly one record, with exactly these two values, when both are
    non-empty strings, and none when either is missing or is the empty
    string.  When the root can be listed, no other subdirectory throws and
    the output path can be written, the run completes and these are the
    records of the subdirectory in the array written to the output file;
    so they are in every run that completes.  A run that does not complete
    emits no record at all: it leaves the tree, output file included, as it
    was.  The test applied to the two values is their truthiness and
    nothing else: between strings it tells only the empty one apart. *)
Theorem validation_rule (matter : string -> exn + jsval)
    (number_to_string : float -> string) (t : node)
    (r w : bool) (entries : list (string * node)) (slug : string)
    (r' w' : bool) (sub : list (string * node))
    (wr : bool) (content : string) (data title summary : jsval) :
  resolve postsDir t = inr (Dir r w entries) ->
  NoDup (map fst entries) ->
  In (slug, Dir r' w' sub) entries ->
  find_entry "index.md" sub = Some (File true wr content) ->
  matter content = inr data ->
  get_property data "title" = inr title ->
  get_property data "summary" = inr summary ->
  (forall posts0 cs,
      fst (visit matter postsDir (MkDirent slug true) posts0 (World t cs))
      = inr (posts0 ++ validated slug title summary)%list)
  /\ (r = true ->
      (forall other, In other (folder_names entries) -> other <> slug ->
                     throws matter t postsDir other = false) ->
      writable outputFile t = true ->
      exit_status matter number_to_string t = 0
      /\ exists posts,
          fst (getPostsFromDir matter postsDir (World t [])) = inr posts
          /\ artifact (final_fs matter number_to_string t)
             = Some (posts_json number_to_string posts)
          /\ records_of slug posts = validated slug title summary)
  /\ (exit_status matter number_to_string t = 0 ->
      exists posts,
        fst (getPostsFromDir matter postsDir (World t [])) = inr posts
        /\ artifact (final_fs matter number_to_string t)
           = Some (posts_json number_to_string posts)
        /\ records_of slug posts = validated slug title summary)
  /\ (exit_status matter number_to_string t <> 0 ->
      final_fs matter number_to_string t = t
      /\ artifact (final_fs matter number_to_string t) = artifact t)
  /\ (forall ti su,
         title = JStr ti -> summary = JStr su ->
         ti <> EmptyString -> su <> EmptyString ->
         validated slug title summary
         = [JObj [("title", JStr ti); ("summary", JStr su);
                  ("url", JStr ("/blog/" ++ slug))]])
  /\ (title = JUndefined \/ title = JStr EmptyString
      \/ summary = JUndefined \/ summary = JStr EmptyString ->
      validated slug title summary = [])
  /\ (forall ti su,
         title = JStr ti -> summary = JStr su ->
         validated slug title summary = [] <->
         ti = EmptyString \/ su = EmptyString).
Proof.
  intros Hroot Hnd Hin Hdoc Hm Ht Hs.
  assert (Hv : verdict_at matter t postsDir slug
               = inr (match validated slug title summary with
                      | p :: _ => Some p
                      | [] => None
                      end)).
  { unfold verdict_at.
    rewrite (resolve_index_path _ _ _ _ _ _ _ _ _ Hroot Hnd Hin), Hdoc.
    rewrite (unit_verdict_document matter slug wr content data title summary)
      by assumption.
    unfold validated.
    destruct (to_boolean title && to_boolean summary); reflexivity. }
  assert (Hrec : record_of_verdict (verdict_at matter t postsDir slug)
                 = validated slug title summary).
  { rewrite Hv. unfold validated.
    destruct (to_boolean title && to_boolean summary); reflexivity. }
  assert (Hcompleted :
            exit_status matter number_to_string t = 0 ->
            exists posts,
              fst (getPostsFromDir matter postsDir (World t [])) = inr posts
              /\ artifact (final_fs matter number_to_string t)
                 = Some (posts_json number_to_string posts)
              /\ records_of slug posts = validated slug title summary).
  { intros Hexit.
    destruct (completed_run matter number_to_string t Hexit)
      as (posts & w0 & entries0 & Hget & Hart & Hroot0 & Hok & Hposts).
    rewrite Hroot in Hroot0. injection Hroot0 as -> -> <-.
    exists posts. split; [ assumption | ]. split; [ assumption | ].
    rewrite Hposts, records_of_included.
    - exact Hrec.
    - apply NoDup_folder_names. assumption.
    - apply In_folder_names. eauto. }
  split; [ | split; [ | split; [ | split; [ | split; [ | split ] ] ] ] ].
  - intros posts0 cs. rewrite visit_spec. cbn [fs fst name].
    fold (verdict_at matter t postsDir slug). rewrite <- Hrec.
    destruct (verdict_at matter t postsDir slug) as [e | [p | ]];
      [ discriminate | reflexivity | ].
    cbn. rewrite app_nil_r. reflexivity.
  - intros -> Hothers Hw.
    assert (Hexit : exit_status matter number_to_string t = 0).
    { apply (run_succeeds matter number_to_string t w entries Hroot);
        [ | assumption ].
      intros other Hother. destruct (string_dec other slug) as [-> | Hne].
      - unfold throws. rewrite Hv. reflexivity.
      - apply Hothers; assumption. }
    split; [ exact Hexit | exact (Hcompleted Hexit) ].
  - exact Hcompleted.
  - intros Hfail.
    rewrite (failed_run_changes_nothing matter number_to_string t Hfail).
    auto.
  - intros ti su -> -> Hti Hsu. unfold validated. cbn.
    apply String.eqb_neq in Hti, Hsu. rewrite Hti, Hsu. reflexivity.
  - intros H. unfold validated.
    destruct H as [-> | [-> | [-> | ->]]]; cbn; try reflexivity;
      destruct (to_boolean title); reflexivity.
  - intros ti su -> ->. unfold validated. cbn.
    destruct (String.eqb_spec ti EmptyString) as [-> | Hti]; cbn.
    + tauto.
    + destruct (String.eqb_spec su EmptyString) as [-> | Hsu]; cbn.
      * tauto.
      * split; [ discriminate | tauto ].
Qed.

Lemma validation_rule_witness :
  exit_status sample_matter sample_number_to_string sample_site = 0
  /\ exists posts,
      fst (getPostsFromDir sample_matter postsDir (World sample_site []))
      = inr posts
      /\ artifact (final_fs sample_matter sample_number_to_string sample_site)
         = Some (posts_json sample_number_to_string posts)
      /\ records_of "01-post" posts
         = [JObj [("title", JStr "A"); ("summary", JStr "B");
                  ("url", JStr "/blog/01-post")]].
Proof.
  destruct (validation_rule sample_matter sample_number_to_string sample_site
              true true blog_two "01-post" true true post_01
              true doc_A data_A (JStr "A") (JStr "B"))
    as (_ & Hrun & _).
  - reflexivity.
  - distinct_names.
  - cbn. auto.
  - reflexivity.
  - reflexivity.
  - reflexivity.
  - reflexivity.
  - apply Hrun.
    + reflexivity.
    + intros other Hother Hne. cbn in Hother.
      destruct Hother as [<- | [<- | [<- | [<- | []]]]];
        try reflexivity; contradiction.
    + reflexivity.
Defined.

(** C1 as the specification words it does not hold.  In [site_locked] the
    subdirectory [01-post] has a readable [index.md] whose front matter
    holds the non-empty strings A and B for title and summary, and the
    document of the subdirectory [03-locked] cannot be read.  The run ends
    with exit status 1 without a write call: no record is emitted for
    [01-post], and there is no output file. *)
Lemma valid_post_is_not_emitted :
  resolve postsDir site_locked = inr (Dir true true blog_locked)
  /\ In ("01-post", Dir true true [("index.md", file doc_A)]) blog_locked
  /\ find_entry "index.md" [("index.md", file doc_A)]
     = Some (File true true doc_A)
  /\ sample_matter doc_A = inr data_A
  /\ get_property data_A "title" = inr (JStr "A")
  /\ get_property data_A "summary" = inr (JStr "B")
  /\ exit_status sample_matter sample_number_to_string site_locked <> 0
  /\ existsb is_write (trace sample_matter sample_number_to_string site_locked)
     = false
  /\ artifact (final_fs sample_matter sample_number_to_string site_locked)
     = None.
Proof.
  split; [ reflexivity | ]. split; [ left; reflexivity | ].
  repeat split; discriminate.
Qed.

(** ** The url of a record *)

Lemma url_of_included (matter : string -> exn + jsval) (t : node) (dir : path)
    (slugs : list string) :
  map (field "url") (included matter t dir slugs) =
    map (fun slug => JStr (url_for slug))
        (filter (is_included matter t dir) slugs).
Proof.
  induction slugs as [ | slug rest IH]; cbn [included flat_map filter].
  - reflexivity.
  - fold (included matter t dir rest). rewrite map_app, IH.
    unfold is_included at 2. unfold verdict_at.
    destruct (unit_verdict matter slug (resolve (index_path dir slug) t))
      as [e | [p | ]] eqn:Hv; cbn [record_of_verdict map app];
      try reflexivity.
    rewrite (record_url _ _ _ _ Hv). reflexivity.
Qed.

Lemma document_verdict_agree (m1 m2 : string -> exn + jsval)
    (slug content : string) :
  same_title_summary m1 m2 ->
  document_verdict m1 slug content = document_verdict m2 slug content.
Proof.
  intros H. specialize (H content). unfold document_verdict.
  destruct (m1 content) as [e1 | d1], (m2 content) as [e2 | d2];
    try contradiction.
  - congruence.
  - destruct H as [-> ->]. reflexivity.
Qed.

Lemma scan_units_agree (m1 m2 : string -> exn + jsval) (t : node) (dir : path)
    (slugs : list string) :
  same_title_summary m1 m2 ->
  forall posts0, scan_units m1 t dir slugs posts0 = scan_units m2 t dir slugs posts0.
Proof.
  intros H. induction slugs as [ | slug rest IH]; intros posts0.
  - reflexivity.
  - cbn [scan_units].
    assert (Hv : unit_verdict m1 slug (resolve (index_path dir slug) t)
                 = unit_verdict m2 slug (resolve (index_path dir slug) t)).
    { destruct (resolve (index_path dir slug) t)
        as [e | [r w content | r w entries]]; cbn; try reflexivity.
      destruct r; [ apply document_verdict_agree; assumption | reflexivity ]. }
    rewrite Hv.
    destruct (unit_verdict m2 slug (resolve (index_path dir slug) t))
      as [e | [p | ]]; rewrite ?IH; reflexivity.
Qed.

Lemma scan_agree (m1 m2 : string -> exn + jsval) (t : node) (dir : path) :
  same_title_summary m1 m2 -> scan m1 t dir = scan m2 t dir.
Proof.
  intros H. unfold scan.
  destruct (resolve dir t) as [e | [r w content | r w entries]];
    try reflexivity.
  destruct r; [ | reflexivity ].
  rewrite (scan_units_agree m1 m2) by assumption. reflexivity.
Qed.

(** C3.  When [getPostsFromDir] returns, the urls of its records are, in
    order, the prefix [/blog/] followed by the name of each included
    folder.  Nothing of the front matter but [title] and [summary] reaches
    the result: a reader that finds different other fields, a [url] among
    them, yields the same records. *)
Theorem url_is_synthesized (matter : string -> exn + jsval) (t : node)
    (posts : list jsval) :
  fst (getPostsFromDir matter postsDir (World t [])) = inr posts ->
  exists w entries,
    resolve postsDir t = inr (Dir true w entries)
    /\ map (field "url") posts =
         map (fun slug => JStr ("/blog/" ++ slug))
             (filter (is_included matter t postsDir) (folder_names entries))
    /\ forall matter' : string -> exn + jsval,
         same_title_summary matter matter' ->
         fst (getPostsFromDir matter' postsDir (World t [])) = inr posts.
Proof.
  rewrite getPostsFromDir_spec. cbn [fs fst]. intros Hscan.
  pose proof Hscan as Hs. apply scan_returns in Hs.
  destruct Hs as (w & entries & Hroot & Hok & ->).
  exists w, entries. split; [ assumption | ]. split.
  - apply url_of_included.
  - intros matter' Hagree. rewrite getPostsFromDir_spec. cbn [fs fst].
    rewrite <- (scan_agree matter matter') by assumption. assumption.
Qed.

Lemma url_is_synthesized_witness :
  exists w entries,
    resolve postsDir sample_site = inr (Dir true w entries)
    /\ map (field "url")
           [post (JStr "A") (JStr "B") "/blog/01-post";
            post (JStr "F") (JStr "G") "/blog/04-post"] =
         map (fun slug => JStr ("/blog/" ++ slug))
             (filter (is_included sample_matter sample_site postsDir)
                     (folder_names entries))
    /\ forall matter' : string -> exn + jsval,
         same_title_summary sample_matter matter' ->
         fst (getPostsFromDir matter' postsDir (World sample_site []))
         = inr [post (JStr "A") (JStr "B") "/blog/01-post";
                post (JStr "F") (JStr "G") "/blog/04-post"].
Proof.
  apply (url_is_synthesized sample_matter sample_site).
  reflexivity.
Defined.

(** The first document of the sample site has a [url] field of its own; the
    record carries the url of the folder. *)
Example url_field_of_front_matter_is_ignored :
  sample_matter doc_A = inr data_A
  /\ field "url" data_A = JStr "/elsewhere"
  /\ fst (getPostsFromDir sample_matter postsDir (World sample_site []))
     = inr [post (JStr "A") (JStr "B") "/blog/01-post";
            post (JStr "F") (JStr "G") "/blog/04-post"].
Proof. repeat split. Qed.

(** ** Runs that abort *)

Section Abort.

Variable matter : string -> exn + jsval.
Variable number_to_string : float -> string.

(** An exception during the scan ends the run: non-zero exit status, no
    write call, the tree as it was. *)
Lemma run_aborts (t : node) (e : exn) :
  fst (scan matter t postsDir) = inl e ->
  exit_status matter number_to_string t = 1
  /\ final_fs matter number_to_string t = t
  /\ existsb is_write (trace matter number_to_string t) = false.
Proof.
  intros H. unfold exit_status, final_fs, trace. rewrite run_spec.
  pose proof (scan_no_write matter t postsDir) as Hnw.
  destruct (scan matter t postsDir) as [[e' | posts] cs]; cbn [fst snd] in *.
  - auto.
  - discriminate.
Qed.

Lemma throwing_folder_aborts (t : node) (r w : bool)
    (entries : list (string * node)) (slug : string) :
  resolve postsDir t = inr (Dir r w entries) ->
  In slug (folder_names entries) ->
  throws matter t postsDir slug = true ->
  exists e, fst (scan matter t postsDir) = inl e.
Proof.
  intros Hroot Hin Hthrow. unfold scan. rewrite Hroot.
  destruct r; [ | exists EACCES; reflexivity ].
  assert (Hex : existsb (throws matter t postsDir) (folder_names entries) = true).
  { apply existsb_exists. eauto. }
  destruct (scan_units_throws matter t postsDir _ [] Hex) as [e He].
  destruct (scan_units matter t postsDir (folder_names entries) []);
    cbn [fst] in *. eauto.
Qed.

End Abort.

(** C2, as the script behaves.  A document without a front-matter block,
    for which gray-matter returns an empty object, is dropped at validation
    without an exception: when no other folder throws, the scan returns and
    holds no record for it.  A document that exists but cannot be read, or
    whose front matter gray-matter rejects, throws an exception that
    nothing catches: the run ends with a non-zero exit status, makes no
    write call and leaves the tree, output file included, as it was. *)
Theorem unreadable_or_malformed_document_aborts
    (matter : string -> exn + jsval) (number_to_string : float -> string)
    (t : node) (w : bool) (entries : list (string * node)) (slug : string)
    (r' w' : bool) (sub : list (string * node)) :
  resolve postsDir t = inr (Dir true w entries) ->
  NoDup (map fst entries) ->
  In (slug, Dir r' w' sub) entries ->
  (forall wr content,
      find_entry "index.md" sub = Some (File true wr content) ->
      matter content = inr (JObj []) ->
      verdict_at matter t postsDir slug = inr None
      /\ ((forall other, In other (folder_names entries) -> other <> slug ->
             throws matter t postsDir other = false) ->
          exists posts,
            fst (getPostsFromDir matter postsDir (World t [])) = inr posts
            /\ records_of slug posts = []))
  /\ (forall wr content,
        find_entry "index.md" sub = Some (File false wr content)
        \/ (find_entry "index.md" sub = Some (File true wr content)
            /\ exists e, matter content = inl e) ->
        exit_status matter number_to_string t = 1
        /\ final_fs matter number_to_string t = t
        /\ existsb is_write (trace matter number_to_string t) = false).
Proof.
  intros Hroot Hnd Hin.
  pose proof (resolve_index_path _ _ _ _ _ _ _ _ _ Hroot Hnd Hin) as Hidx.
  assert (Hslug : In slug (folder_names entries)).
  { apply In_folder_names. eauto. }
  split.
  - intros wr content Hdoc Hm.
    assert (Hv : verdict_at matter t postsDir slug = inr None).
    { unfold verdict_at. rewrite Hidx, Hdoc. cbn. unfold document_verdict.
      rewrite Hm. reflexivity. }
    split; [ exact Hv | ]. intros Hothers.
    exists (included matter t postsDir (folder_names entries)). split.
    + rewrite getPostsFromDir_spec. cbn [fs fst]. apply scan_returns.
      exists w, entries. split; [ assumption | ]. split; [ | reflexivity ].
      apply forallb_forall. intros other Hother.
      destruct (string_dec other slug) as [-> | Hne].
      * unfold throws. rewrite Hv. reflexivity.
      * rewrite Hothers by assumption. reflexivity.
    + rewrite records_of_included.
      * rewrite Hv. reflexivity.
      * apply NoDup_folder_names. assumption.
      * assumption.
  - intros wr content Hbad.
    assert (Hthrow : throws matter t postsDir slug = true).
    { unfold throws, verdict_at. rewrite Hidx.
      destruct Hbad as [Hdoc | [Hdoc [e Hm]]]; rewrite Hdoc; cbn.
      - reflexivity.
      - unfold document_verdict. rewrite Hm. reflexivity. }
    destruct (throwing_folder_aborts matter t _ _ _ _ Hroot Hslug Hthrow)
      as [e He].
    apply (run_aborts matter number_to_string t e He).
Qed.

Lemma unreadable_or_malformed_document_aborts_witness :
  verdict_at sample_matter site_locked postsDir "02-plain" = inr None
  /\ exit_status sample_matter sample_number_to_string site_locked = 1
  /\ final_fs sample_matter sample_number_to_string site_locked = site_locked
  /\ existsb is_write (trace sample_matter sample_number_to_string site_locked)
     = false.
Proof.
  split.
  - destruct (unreadable_or_malformed_document_aborts
                sample_matter sample_number_to_string site_locked true
                blog_locked "02-plain" true true [("index.md", file doc_plain)])
      as [Hplain _].
    + reflexivity.
    + distinct_names.
    + cbn. auto.
    + destruct (Hplain true doc_plain) as [Hv _]; [ reflexivity .. | exact Hv ].
  - destruct (unreadable_or_malformed_document_aborts
                sample_matter sample_number_to_string site_locked true
                blog_locked "03-locked" true true
                [("index.md", File false true doc_F)])
      as [_ Hlocked].
    + reflexivity.
    + distinct_names.
    + cbn. auto.
    + apply (Hlocked true doc_F). left. reflexivity.
Defined.

(** C2 as the specification words it does not hold.  In [site_locked] the folder
    [01-post] is a valid unit and the document of [03-locked] exists but is
    unreadable; in [site_broken] the folder [01-post] is valid and the
    front matter of [02-broken] is rejected by the YAML reader.  In both
    the run ends with exit status 1 and emits no record at all: the first
    site gets no output file, the second keeps its previous one. *)
Lemma one_bad_document_stops_the_run :
  verdict_at sample_matter site_locked postsDir "01-post"
  = inr (Some (post (JStr "A") (JStr "B") "/blog/01-post"))
  /\ resolve (index_path postsDir "03-locked") site_locked
     = inr (File false true doc_F)
  /\ exit_status sample_matter sample_number_to_string site_locked <> 0
  /\ artifact (final_fs sample_matter sample_number_to_string site_locked)
     = None
  /\ verdict_at sample_matter site_broken postsDir "01-post"
     = inr (Some (post (JStr "A") (JStr "B") "/blog/01-post"))
  /\ sample_matter doc_broken = inl YAMLException
  /\ exit_status sample_matter sample_number_to_string site_broken <> 0
  /\ artifact (final_fs sample_matter sample_number_to_string site_broken)
     = Some "previous build".
Proof. repeat split; discriminate. Qed.

(** ** The empty index *)

(** C5, as the script behaves.  When the content root is a listable
    directory, every direct subdirectory is skipped or dropped without an
    exception (in particular when there is none), and the output path can
    be written, the run exits with status 0 and the output file holds the
    two characters of the empty JSON array. *)
Theorem empty_index_is_written (matter : string -> exn + jsval)
    (number_to_string : float -> string) (t : node) (w : bool)
    (entries : list (string * node)) :
  resolve postsDir t = inr (Dir true w entries) ->
  (forall slug, In slug (folder_names entries) ->
                verdict_at matter t postsDir slug = inr None) ->
  writable outputFile t = true ->
  exit_status matter number_to_string t = 0
  /\ artifact (final_fs matter number_to_string t) = Some "[]"
  /\ filter is_write (trace matter number_to_string t)
     = [WriteFileSync outputFile "[]"].
Proof.
  intros Hroot Hnone Hw.
  assert (Hscan : fst (scan matter t postsDir) = inr []).
  { apply scan_returns. exists w, entries. split; [ assumption | ]. split.
    - apply forallb_forall. intros slug Hin. unfold throws.
      rewrite Hnone by assumption. reflexivity.
    - unfold included. induction (folder_names entries) as [ | s rest IH].
      + reflexivity.
      + cbn [flat_map]. rewrite Hnone by (left; reflexivity).
        cbn [record_of_verdict app]. apply IH.
        intros slug Hin. apply Hnone. right. assumption. }
  apply (write_at_writable outputFile "[]") in Hw. destruct Hw as [t' Hw].
  pose proof (scan_no_write matter t postsDir) as Hnw.
  unfold exit_status, final_fs, trace. rewrite run_spec.
  destruct (scan matter t postsDir) as [res cs]. cbn [fst snd] in *.
  subst res. cbv zeta. rewrite posts_json_nil, Hw. cbn [fst snd fs calls].
  split; [ reflexivity | ]. split.
  - apply (artifact_written _ _ _ Hw).
  - rewrite filter_app. cbn.
    assert (Hf : filter is_write cs = []).
    { clear - Hnw. induction cs as [ | c cs IH]; [ reflexivity | ].
      cbn in *. apply orb_false_iff in Hnw. destruct Hnw as [-> Hnw]. auto. }
    rewrite Hf. reflexivity.
Qed.

Lemma empty_index_is_written_witness :
  exit_status sample_matter sample_number_to_string site_drafts = 0
  /\ artifact (final_fs sample_matter sample_number_to_string site_drafts)
     = Some "[]"
  /\ filter is_write (trace sample_matter sample_number_to_string site_drafts)
     = [WriteFileSync outputFile "[]"].
Proof.
  apply (empty_index_is_written sample_matter sample_number_to_string
           site_drafts true blog_drafts).
  - reflexivity.
  - intros slug Hin. cbn in Hin.
    destruct Hin as [<- | [<- | [<- | []]]]; reflexivity.
  - reflexivity.
Defined.

(** C5 as the specification words it does not hold.  In
    [site_only_broken] the content root exists and no subdirectory yields a
    record, its only document having front matter that the YAML reader
    rejects; the run ends with exit status 1 and there is no output file.  In [site_empty_without_public]
    the content root exists and has no subdirectory, and the directory of
    the output file is missing; the run ends with exit status 1 and there
    is no output file either. *)
Lemma no_valid_unit_yet_no_artifact :
  ((exists w entries,
       resolve postsDir site_only_broken = inr (Dir true w entries)
       /\ forallb (fun slug =>
                     negb (is_included sample_matter site_only_broken
                             postsDir slug))
                  (folder_names entries) = true)
   /\ exit_status sample_matter sample_number_to_string site_only_broken <> 0
   /\ artifact (final_fs sample_matter sample_number_to_string
                  site_only_broken) = None)
  /\ (resolve postsDir site_empty_without_public = inr (Dir true true [])
      /\ exit_status sample_matter sample_number_to_string
           site_empty_without_public <> 0
      /\ artifact (final_fs sample_matter sample_number_to_string
                     site_empty_without_public) = None).
Proof.
  split; [ split | ]; [ | repeat split; discriminate .. ].
  eexists _, _. split; reflexivity.
Qed.

(** ** What the scanner looks at *)

Section Scope.

Variable matter : string -> exn + jsval.

Lemma candidates_names (entries : list (string * node)) :
  map fst (candidates entries) = folder_names entries.
Proof.
  rewrite folder_names_filter.
  induction entries as [ | [k [r w content | r w sub]] rest IH]; cbn.
  - reflexivity.
  - assumption.
  - rewrite IH. reflexivity.
Qed.

Lemma scan_units_candidates (t : node) (dir : path) (r w : bool)
    (entries : list (string * node)) :
  resolve dir t = inr (Dir r w entries) ->
  NoDup (map fst entries) ->
  forall (part : list (string * node)) (posts : list jsval),
    incl part entries ->
    scan_units matter t dir (folder_names part) posts =
      scan_candidates matter dir (candidates part) posts.
Proof.
  intros Hroot Hnd.
  induction part as [ | [k [rf wf content | r' w' sub]] rest IH];
    intros posts Hincl.
  - reflexivity.
  - apply IH. intros e He. apply Hincl. right. assumption.
  - change (folder_names ((k, Dir r' w' sub) :: rest))
      with (k :: folder_names rest).
    cbn [scan_units candidates scan_candidates].
    assert (Hin : In (k, Dir r' w' sub) entries) by (apply Hincl; left; reflexivity).
    rewrite (resolve_index_path _ _ _ _ _ _ _ _ _ Hroot Hnd Hin).
    change (match find_entry "index.md" sub with
            | Some n => inr n
            | None => inl ENOENT
            end) with (index_of (find_entry "index.md" sub)).
    assert (Hrest : incl rest entries).
    { intros e He. apply Hincl. right. assumption. }
    destruct (unit_verdict matter k (index_of (find_entry "index.md" sub)))
      as [e | [p | ]]; rewrite ?IH by assumption; reflexivity.
Qed.

(** The scan is a function of the view: of the direct subdirectories and
    of their [index.md] alone. *)
Lemma scan_candidates_spec (t : node) (dir : path) (r w : bool)
    (entries : list (string * node)) :
  resolve dir t = inr (Dir r w entries) ->
  NoDup (map fst entries) ->
  scan matter t dir =
    if r then
      let (res, cs) := scan_candidates matter dir (candidates entries) [] in
      (res, ReaddirSync dir :: cs)
    else (inl EACCES, [ReaddirSync dir]).
Proof.
  intros Hroot Hnd. unfold scan. rewrite Hroot.
  destruct r; [ | reflexivity ].
  rewrite (scan_units_candidates t dir _ _ _ Hroot Hnd entries [])
    by apply incl_refl.
  reflexivity.
Qed.



End Scope.












(** ** Reproducible output *)

Section Reproducible.

Variable matter : string -> exn + jsval.
Variable number_to_string : float -> string.

Lemma scan_units_same_root (t1 t2 : node) (dir : path) (slugs : list string) :
  resolve dir t1 = resolve dir t2 ->
  forall posts,
    scan_units matter t1 dir slugs posts = scan_units matter t2 dir slugs posts.
Proof.
  intros Hroot. induction slugs as [ | slug rest IH]; intros posts.
  - reflexivity.
  - cbn [scan_units].
    assert (Hidx : resolve (index_path dir slug) t1
                   = resolve (index_path dir slug) t2).
    { unfold index_path, path_join. rewrite !resolve_app, Hroot. reflexivity. }
    rewrite Hidx.
    destruct (unit_verdict matter slug (resolve (index_path dir slug) t2))
      as [e | [p | ]]; rewrite ?IH; reflexivity.
Qed.

(** The scan reads nothing outside the content root. *)
Lemma scan_same_root (t1 t2 : node) (dir : path) :
  resolve dir t1 = resolve dir t2 -> scan matter t1 dir = scan matter t2 dir.
Proof.
  intros Hroot.
  pose proof (fun slugs => scan_units_same_root t1 t2 dir slugs Hroot) as Hu.
  unfold scan. rewrite Hroot.
  destruct (resolve dir t2) as [e | [r w content | r w entries]];
    try reflexivity.
  destruct r; [ | reflexivity ].
  rewrite Hu. reflexivity.
Qed.

Lemma filter_no_write (cs : list call) :
  existsb is_write cs = false -> filter is_write cs = [].
Proof.
  induction cs as [ | c cs IH]; cbn; intros H.
  - reflexivity.
  - apply orb_false_iff in H. destruct H as [-> H]. auto.
Qed.

(** The write calls of a run: none when the scan throws, one otherwise,
    with the text of the array. *)
Lemma writes_of_run (t : node) :
  filter is_write (trace matter number_to_string t) =
    match fst (scan matter t postsDir) with
    | inl _ => []
    | inr posts => [WriteFileSync outputFile (posts_json number_to_string posts)]
    end.
Proof.
  unfold trace. rewrite run_spec.
  pose proof (scan_no_write matter t postsDir) as Hnw.
  apply filter_no_write in Hnw.
  destruct (scan matter t postsDir) as [[e | posts] cs]; cbn [fst snd] in *.
  - assumption.
  - cbv zeta.
    destruct (write_at outputFile (posts_json number_to_string posts) t);
      cbn [snd calls]; rewrite filter_app, Hnw; reflexivity.
Qed.

Lemma final_fs_cases (t : node) :
  final_fs matter number_to_string t = t
  \/ exists posts cs t',
      scan matter t postsDir = (inr posts, cs)
      /\ write_at outputFile (posts_json number_to_string posts) t = inr t'
      /\ final_fs matter number_to_string t = t'.
Proof.
  unfold final_fs. rewrite run_spec.
  destruct (scan matter t postsDir) as [[e | posts] cs] eqn:Hscan.
  - left. reflexivity.
  - cbv zeta.
    destruct (write_at outputFile (posts_json number_to_string posts) t)
      as [e | t'] eqn:Hw.
    + left. reflexivity.
    + right. exists posts, cs, t'. auto.
Qed.

(** A second run over the tree that a run left changes nothing. *)
Lemma run_twice (t : node) :
  final_fs matter number_to_string (final_fs matter number_to_string t)
  = final_fs matter number_to_string t.
Proof.
  destruct (final_fs_cases t) as [Hsame | (posts & cs & t' & Hscan & Hw & Hfs)].
  - rewrite Hsame. exact Hsame.
  - rewrite Hfs. unfold final_fs. rewrite run_spec.
    assert (Hroot : resolve postsDir t' = resolve postsDir t).
    { apply (resolve_write_at_other "public" "src" ["posts.json"]
               ["content"; "blog"] (posts_json number_to_string posts)).
      - discriminate.
      - exact Hw. }
    rewrite (scan_same_root t' t postsDir Hroot), Hscan. cbv zeta.
    rewrite (write_at_twice _ _ _ _ Hw). reflexivity.
Qed.

End Reproducible.

Lemma post_keys (matter : string -> exn + jsval) (t : node) (dir : path)
    (slugs : list string) :
  Forall (fun p => keys p = ["title"; "summary"; "url"])
         (included matter t dir slugs).
Proof.
  induction slugs as [ | slug rest IH]; cbn [included flat_map].
  - constructor.
  - apply Forall_app. split; [ | exact IH ].
    unfold verdict_at.
    destruct (unit_verdict matter slug (resolve (index_path dir slug) t))
      as [e | [p | ]] eqn:Hv; cbn [record_of_verdict]; auto.
    apply unit_verdict_included in Hv.
    destruct Hv as (w & content & data & title & summary
                    & _ & _ & _ & _ & _ & _ & ->).
    repeat constructor.
Qed.

(** C7.  Two runs over trees whose content roots are the same, entry for
    entry in the same order and byte for byte, hand the same text to the
    writer and, when both complete, leave the same bytes in the output
    file; whatever else the trees hold, a previous artifact included, plays
    no part.  Running the script again on the tree it left changes nothing.
    Every record lists its keys in the order title, summary, url. *)
Theorem output_is_reproducible (matter : string -> exn + jsval)
    (number_to_string : float -> string) (t1 t2 : node) :
  resolve postsDir t1 = resolve postsDir t2 ->
  filter is_write (trace matter number_to_string t1)
  = filter is_write (trace matter number_to_string t2)
  /\ (exit_status matter number_to_string t1 = 0 ->
      exit_status matter number_to_string t2 = 0 ->
      exists text,
        artifact (final_fs matter number_to_string t1) = Some text
        /\ artifact (final_fs matter number_to_string t2) = Some text)
  /\ final_fs matter number_to_string (final_fs matter number_to_string t1)
     = final_fs matter number_to_string t1
  /\ (forall posts,
         fst (getPostsFromDir matter postsDir (World t1 [])) = inr posts ->
         Forall (fun p => keys p = ["title"; "summary"; "url"]) posts).
Proof.
  intros Hroot.
  pose proof (scan_same_root matter t1 t2 postsDir Hroot) as Hscan.
  split; [ | split; [ | split ] ].
  - rewrite !writes_of_run, Hscan. reflexivity.
  - intros H1 H2.
    apply run_completes in H1. destruct H1 as (p1 & t1' & Hs1 & Hw1 & Hr1).
    apply run_completes in H2. destruct H2 as (p2 & t2' & Hs2 & Hw2 & Hr2).
    rewrite Hscan, Hs2 in Hs1. injection Hs1 as <-.
    exists (posts_json number_to_string p2). unfold final_fs.
    rewrite Hr1, Hr2. cbn [snd fs].
    rewrite (artifact_written _ _ _ Hw1), (artifact_written _ _ _ Hw2). auto.
  - apply run_twice.
  - intros posts. rewrite getPostsFromDir_spec. cbn [fs fst]. intros H.
    apply scan_returns in H. destruct H as (w & entries & _ & _ & ->).
    apply post_keys.
Qed.

Lemma output_is_reproducible_witness :
  filter is_write (trace sample_matter sample_number_to_string sample_site)
  = filter is_write (trace sample_matter sample_number_to_string
                       (site blog_two []))
  /\ (exit_status sample_matter sample_number_to_string sample_site = 0 ->
      exit_status sample_matter sample_number_to_string (site blog_two []) = 0 ->
      exists text,
        artifact (final_fs sample_matter sample_number_to_string sample_site)
        = Some text
        /\ artifact (final_fs sample_matter sample_number_to_string
                       (site blog_two [])) = Some text)
  /\ final_fs sample_matter sample_number_to_string
       (final_fs sample_matter sample_number_to_string sample_site)
     = final_fs sample_matter sample_number_to_string sample_site
  /\ (forall posts,
         fst (getPostsFromDir sample_matter postsDir (World sample_site []))
         = inr posts ->
         Forall (fun p => keys p = ["title"; "summary"; "url"]) posts).
Proof.
  apply (output_is_reproducible sample_matter sample_number_to_string
           sample_site (site blog_two [])).
  reflexivity.
Defined.

Lemma included_provenance (matter : string -> exn + jsval) (t : node)
    (dir : path) (slugs : list string) (p : jsval) :
  In p (included matter t dir slugs) ->
  exists slug w content data title summary,
    In slug slugs
    /\ resolve (index_path dir slug) t = inr (File true w content)
    /\ matter content = inr data
    /\ get_property data "title" = inr title
    /\ get_property data "summary" = inr summary
    /\ to_boolean title = true
    /\ to_boolean summary = true
    /\ p = post title summary (url_for slug).
Proof.
  unfold included. intros Hp. apply in_flat_map in Hp.
  destruct Hp as (slug & Hslug & Hp). unfold verdict_at in Hp.
  destruct (unit_verdict matter slug (resolve (index_path dir slug) t))
    as [e | [p' | ]] eqn:Hv; cbn in Hp; try contradiction.
  destruct Hp as [<- | []].
  apply unit_verdict_included in Hv.
  destruct Hv as (w & content & data & title & summary & H).
  exists slug, w, content, data, title, summary. tauto.
Qed.

(** ** Order of the records and of the write *)

Lemma scan_calls_returned (matter : string -> exn + jsval) (t : node)
    (dir : path) (w : bool) (entries : list (string * node))
    (posts : list jsval) :
  resolve dir t = inr (Dir true w entries) ->
  fst (scan matter t dir) = inr posts ->
  snd (scan matter t dir)
  = ReaddirSync dir :: flat_map (calls_at t dir) (folder_names entries).
Proof.
  unfold scan. intros ->.
  pose proof (scan_units_calls matter t dir (folder_names entries) [] posts)
    as H.
  destruct (scan_units matter t dir (folder_names entries) []);
    cbn [fst snd] in *.
  intros Hres. rewrite H by assumption. reflexivity.
Qed.

Lemma calls_at_exists (t : node) (dir : path) (slug : string) :
  In (ExistsSync (index_path dir slug)) (calls_at t dir slug).
Proof.
  unfold calls_at, unit_calls.
  destruct (resolve (index_path dir slug) t); left; reflexivity.
Qed.

(** C8, as the script behaves.  Over a content root that can be listed:
    - when no subdirectory throws, [getPostsFromDir] returns after it has
      visited every subdirectory, without any write; its array holds the
      records of the included subdirectories in enumeration order; the run
      then makes exactly one write call, that of the text of the whole
      array to the output path, and nothing but the line printed on
      success follows it;
    - when a subdirectory throws, the run makes no write call at all, ends
      with exit status 1 and leaves the tree as it was. *)
Theorem single_write_after_scan (matter : string -> exn + jsval)
    (number_to_string : float -> string) (t : node) (w : bool)
    (entries : list (string * node)) :
  resolve postsDir t = inr (Dir true w entries) ->
  ((forall slug, In slug (folder_names entries) ->
                 throws matter t postsDir slug = false) ->
   exists posts tail,
     fst (getPostsFromDir matter postsDir (World t [])) = inr posts
     /\ map (field "url") posts
        = map (fun slug => JStr ("/blog/" ++ slug))
              (filter (is_included matter t postsDir) (folder_names entries))
     /\ (forall slug, In slug (folder_names entries) ->
           In (ExistsSync (index_path postsDir slug))
              (calls (snd (getPostsFromDir matter postsDir (World t [])))))
     /\ existsb is_write
          (calls (snd (getPostsFromDir matter postsDir (World t [])))) = false
     /\ trace matter number_to_string t
        = (calls (snd (getPostsFromDir matter postsDir (World t [])))
             ++ WriteFileSync outputFile (posts_json number_to_string posts)
             :: tail)%list
     /\ existsb is_write tail = false
     /\ filter is_write (trace matter number_to_string t)
        = [WriteFileSync outputFile (posts_json number_to_string posts)]
     /\ (writable outputFile t = true ->
         exit_status matter number_to_string t = 0
         /\ tail = [ConsoleLog (success_line posts)]
         /\ artifact (final_fs matter number_to_string t)
            = Some (posts_json number_to_string posts))
     /\ (writable outputFile t = false ->
         exit_status matter number_to_string t = 1
         /\ tail = []
         /\ final_fs matter number_to_string t = t))
  /\ (forall slug, In slug (folder_names entries) ->
        throws matter t postsDir slug = true ->
        filter is_write (trace matter number_to_string t) = []
        /\ exit_status matter number_to_string t = 1
        /\ final_fs matter number_to_string t = t).
Proof.
  intros Hroot. split.
  - intros Hok.
    assert (Hscan : fst (scan matter t postsDir)
                    = inr (included matter t postsDir (folder_names entries))).
    { apply scan_returns. exists w, entries.
      split; [ assumption | ]. split; [ | reflexivity ].
      apply forallb_forall. intros slug Hin. rewrite Hok by assumption.
      reflexivity. }
    pose proof (scan_calls_returned matter t postsDir w entries _ Hroot Hscan)
      as Hcalls.
    pose proof (scan_no_write matter t postsDir) as Hnw.
    set (posts := included matter t postsDir (folder_names entries)) in *.
    assert (Hwritable :
              writable outputFile t = true <->
              exists t', write_at outputFile
                           (posts_json number_to_string posts) t = inr t').
    { apply write_at_writable. }
    exists posts.
    exists (match write_at outputFile (posts_json number_to_string posts) t with
            | inl _ => []
            | inr _ => [ConsoleLog (success_line posts)]
            end).
    rewrite getPostsFromDir_spec. cbn [fs calls fst snd app].
    unfold exit_status, trace, final_fs. rewrite run_spec.
    destruct (scan matter t postsDir) as [res cs]. cbn [fst snd] in *.
    subst res. cbv zeta.
    split; [ reflexivity | ].
    split; [ apply url_of_included | ].
    split.
    { intros slug Hin. rewrite Hcalls. right. apply in_flat_map.
      exists slug. split; [ assumption | apply calls_at_exists ]. }
    split; [ assumption | ].
    destruct (write_at outputFile (posts_json number_to_string posts) t)
      as [e | t'] eqn:Hw; cbn [fst snd fs calls].
    + split; [ reflexivity | ]. split; [ reflexivity | ].
      split; [ rewrite filter_app, (filter_no_write cs Hnw); reflexivity | ].
      split.
      * intros Hyes. apply Hwritable in Hyes. destruct Hyes as [t' Hyes].
        discriminate.
      * auto.
    + split; [ reflexivity | ]. split; [ reflexivity | ].
      split; [ rewrite filter_app, (filter_no_write cs Hnw); reflexivity | ].
      split.
      * intros _. rewrite (artifact_written _ _ _ Hw). auto.
      * intros Hno.
        assert (Hyes : writable outputFile t = true)
          by (apply Hwritable; eauto).
        congruence.
  - intros slug Hin Hthrow.
    destruct (throwing_folder_aborts matter t _ _ _ _ Hroot Hin Hthrow)
      as [e He].
    destruct (run_aborts matter number_to_string t e He) as (H1 & H2 & H3).
    split; [ apply filter_no_write; assumption | auto ].
Qed.

Lemma single_write_after_scan_witness :
  exists posts tail,
    fst (getPostsFromDir sample_matter postsDir (World sample_site []))
    = inr posts
    /\ trace sample_matter sample_number_to_string sample_site
       = (calls (snd (getPostsFromDir sample_matter postsDir
                        (World sample_site [])))
            ++ WriteFileSync outputFile
                 (posts_json sample_number_to_string posts)
            :: tail)%list
    /\ filter is_write (trace sample_matter sample_number_to_string sample_site)
       = [WriteFileSync outputFile (posts_json sample_number_to_string posts)].
Proof.
  destruct (single_write_after_scan sample_matter sample_number_to_string
              sample_site true blog_two) as [Hcomplete _].
  - reflexivity.
  - destruct Hcomplete
      as (posts & tail & Hget & _ & _ & _ & Htrace & _ & Hone & _).
    + intros slug Hin. cbn in Hin.
      destruct Hin as [<- | [<- | [<- | [<- | []]]]]; reflexivity.
    + exists posts, tail. auto.
Defined.

(** C8 as the specification words it does not hold.  In [site_locked] the
    scan visits [01-post], which is valid, and [02-plain], then throws at
    the unreadable document of [03-locked]: the output file is written not
    once but never, and the run ends with exit status 1. *)
Lemma aborted_run_never_writes :
  resolve postsDir site_locked = inr (Dir true true blog_locked)
  /\ verdict_at sample_matter site_locked postsDir "01-post"
     = inr (Some (post (JStr "A") (JStr "B") "/blog/01-post"))
  /\ trace sample_matter sample_number_to_string site_locked
     = [ReaddirSync postsDir;
        ExistsSync (index_path postsDir "01-post");
        ReadFileSync (index_path postsDir "01-post");
        ExistsSync (index_path postsDir "02-plain");
        ReadFileSync (index_path postsDir "02-plain");
        ExistsSync (index_path postsDir "03-locked");
        ReadFileSync (index_path postsDir "03-locked")]
  /\ filter is_write (trace sample_matter sample_number_to_string site_locked)
     = []
  /\ exit_status sample_matter sample_number_to_string site_locked <> 0
  /\ artifact (final_fs sample_matter sample_number_to_string site_locked)
     = None.
Proof. repeat split; discriminate. Qed.

(** ** Distinct urls *)

Lemma NoDup_map_filter_url (keep : string -> bool) (slugs : list string) :
  NoDup slugs ->
  NoDup (map (fun slug => JStr (url_for slug)) (filter keep slugs)).
Proof.
  induction slugs as [ | s rest IH]; cbn; intros Hnd.
  - constructor.
  - inversion Hnd as [ | ? ? Hnot Hnd']; subst.
    destruct (keep s); cbn; auto.
    constructor; auto.
    intros Hin. apply in_map_iff in Hin.
    destruct Hin as (s' & Heq & Hin).
    assert (Hs : s' = s) by (apply url_for_injective; congruence).
    subst s'.
    apply filter_In in Hin. apply Hnot. tauto.
Qed.

(** C10.  When the names in the listing of the content root are pairwise
    distinct and [getPostsFromDir] returns, the urls of its records are
    pairwise distinct, each is the prefix followed by the name of a
    subdirectory, no subdirectory has more than one record, and the loop
    has taken one turn for each subdirectory, in enumeration order. *)
Theorem urls_are_distinct (matter : string -> exn + jsval) (t : node)
    (r w : bool) (entries : list (string * node)) (posts : list jsval) :
  resolve postsDir t = inr (Dir r w entries) ->
  NoDup (map fst entries) ->
  fst (getPostsFromDir matter postsDir (World t [])) = inr posts ->
  NoDup (map (field "url") posts)
  /\ (forall slug, List.length (records_of slug posts) <= 1)
  /\ Forall (fun p => exists slug,
                 In slug (folder_names entries)
                 /\ field "url" p = JStr ("/blog/" ++ slug)) posts
  /\ NoDup (folder_names entries)
  /\ calls (snd (getPostsFromDir matter postsDir (World t [])))
     = ReaddirSync postsDir :: flat_map (calls_at t postsDir) (folder_names entries).
Proof.
  intros Hroot Hnd. rewrite !getPostsFromDir_spec. cbn [fs fst snd calls app].
  intros Hscan. pose proof Hscan as Hret.
  apply scan_returns in Hscan.
  destruct Hscan as (w0 & entries0 & Hroot0 & _ & ->).
  rewrite Hroot in Hroot0. injection Hroot0 as -> -> <-.
  pose proof (NoDup_folder_names entries Hnd) as Hnames.
  split; [ | split; [ | split; [ | split ] ] ].
  - rewrite url_of_included. apply NoDup_map_filter_url. assumption.
  - intros slug. destruct (in_dec string_dec slug (folder_names entries))
      as [Hin | Hnot].
    + rewrite records_of_included by assumption.
      destruct (verdict_at matter t postsDir slug) as [e | [p | ]]; cbn; lia.
    + rewrite records_of_included_absent by assumption. cbn. lia.
  - apply Forall_forall. intros p Hp. apply included_provenance in Hp.
    destruct Hp as (slug & wd & content & data & title & summary
                    & Hslug & _ & _ & _ & _ & _ & _ & ->).
    exists slug. split; [ assumption | reflexivity ].
  - assumption.
  - eapply scan_calls_returned; eassumption.
Qed.

Lemma urls_are_distinct_witness :
  NoDup (map (field "url")
             [post (JStr "A") (JStr "B") "/blog/01-post";
              post (JStr "F") (JStr "G") "/blog/04-post"])
  /\ (forall slug,
         List.length
           (records_of slug [post (JStr "A") (JStr "B") "/blog/01-post";
                             post (JStr "F") (JStr "G") "/blog/04-post"]) <= 1).
Proof.
  destruct (urls_are_distinct sample_matter sample_site true true blog_two
              [post (JStr "A") (JStr "B") "/blog/01-post";
               post (JStr "F") (JStr "G") "/blog/04-post"])
    as (Hurls & Hone & _).
  - reflexivity.
  - distinct_names.
  - reflexivity.
  - exact (conj Hurls Hone).
Defined.

(** ** The text of a record *)

Lemma string_app_assoc (a b c : string) : (a ++ b) ++ c = a ++ (b ++ c).
Proof.
  induction a as [ | x a IH]; cbn.
  - reflexivity.
  - rewrite IH. reflexivity.
Qed.

(** Bytes outside the escapes of the JSON grammar are copied as they are:
    markup characters and the bytes of multi-byte characters among them. *)
Lemma quote_char_plain (c : ascii) :
  32 <= nat_of_ascii c ->
  nat_of_ascii c <> 34 ->
  nat_of_ascii c <> 92 ->
  quote_char c = String c EmptyString.
Proof.
  intros Hge Hq Hb. unfold quote_char.
  destruct (Nat.eqb_spec (nat_of_ascii c) 34); [ contradiction | ].
  destruct (Nat.eqb_spec (nat_of_ascii c) 92); [ contradiction | ].
  destruct (Nat.eqb_spec (nat_of_ascii c) 8); [ lia | ].
  destruct (Nat.eqb_spec (nat_of_ascii c) 12); [ lia | ].
  destruct (Nat.eqb_spec (nat_of_ascii c) 10); [ lia | ].
  destruct (Nat.eqb_spec (nat_of_ascii c) 13); [ lia | ].
  destruct (Nat.eqb_spec (nat_of_ascii c) 9); [ lia | ].
  destruct (Nat.ltb_spec (nat_of_ascii c) 32); [ lia | ].
  reflexivity.
Qed.

Lemma read_quote_char (c : ascii) (tail : string) :
  read_string (quote_char c ++ tail) = prepend (nat_of_ascii c) (read_string tail).
Proof.
  destruct c as [[] [] [] [] [] [] [] []]; reflexivity.
Qed.

Lemma read_quote_body (s tail : string) :
  read_string (quote_body s ++ dquote ++ tail) = Some (s, tail).
Proof.
  induction s as [ | c s IH].
  - reflexivity.
  - cbn [quote_body]. rewrite string_app_assoc, read_quote_char, IH.
    cbn [prepend]. rewrite ascii_nat_embedding. reflexivity.
Qed.

(** What [quote] writes reads back as the string it was given. *)
Lemma read_quote (s : string) : JSON_read_string (quote s) = Some s.
Proof.
  unfold quote. change (dquote ++ quote_body s ++ dquote)
    with (String (ascii_of_nat 34) (quote_body s ++ dquote)).
  cbn [JSON_read_string].
  change (Nat.eqb (nat_of_ascii (ascii_of_nat 34)) 34) with true. cbv iota.
  replace (quote_body s ++ dquote) with (quote_body s ++ dquote ++ EmptyString).
  - rewrite read_quote_body. reflexivity.
  - reflexivity.
Qed.

Section Text.

Variable number_to_string : float -> string.

(** Only [undefined] has no JSON text; a truthy value is never
    [undefined]. *)
Lemma serialize_truthy (gap indent : string) (v : jsval) :
  to_boolean v = true ->
  exists text, serialize number_to_string gap indent v = Some text.
Proof.
  destruct v as [ | | b | x | s | items | props]; cbn -[join];
    try discriminate; intros _.
  - destruct b; eauto.
  - eauto.
  - eauto.
  - destruct (map _ items); [ eauto | ].
    destruct (String.eqb gap EmptyString); eauto.
  - destruct (flat_map _ props); [ eauto | ].
    destruct (String.eqb gap EmptyString); eauto.
Qed.

(** The text of a record whose three values have a text: three members, in
    the order title, summary, url. *)
Lemma serialize_post (title summary : jsval) (url T S : string) :
  serialize number_to_string "  " "    " title = Some T ->
  serialize number_to_string "  " "    " summary = Some S ->
  element_text number_to_string (post title summary url) =
    "{" ++ nl ++ "    " ++ quote "title" ++ ": " ++ T ++ "," ++ nl
        ++ "    " ++ quote "summary" ++ ": " ++ S ++ "," ++ nl
        ++ "    " ++ quote "url" ++ ": " ++ quote url ++ nl ++ "  }".
Proof.
  intros HT HS. unfold element_text, post.
  cbn [serialize flat_map snd fst app String.eqb].
  change ("  " ++ "  ") with "    ". rewrite HT, HS.
  cbn [app join String.eqb Ascii.eqb Bool.eqb serialize].
  generalize (quote url). intros U.
  rewrite !string_app_assoc. cbv. reflexivity.
Qed.

Lemma posts_json_elements (posts : list jsval) :
  posts_json number_to_string posts =
    match posts with
    | [] => "[]"
    | _ :: _ =>
        "[" ++ nl ++ "  "
            ++ join ("," ++ nl ++ "  ")
                    (map (element_text number_to_string) posts)
            ++ nl ++ "]"
    end.
Proof.
  destruct posts as [ | p rest]; reflexivity.
Qed.

End Text.

(** C9.  After a run that completes, the output file holds the text of one
    JSON array, that of the array returned by [getPostsFromDir].  Each of
    its elements is an object with the three members title, summary and
    url, in this order, and no other; title and summary are the very values
    that gray-matter read from the document of the folder, and url is the
    prefix followed by the folder name.  A string is written as its JSON
    literal: every byte but the double quote, the backslash and the control
    characters is copied as it is, and the literal reads back as the same
    string. *)
Theorem artifact_shape (matter : string -> exn + jsval)
    (number_to_string : float -> string) (t : node) :
  exit_status matter number_to_string t = 0 ->
  exists posts,
    fst (getPostsFromDir matter postsDir (World t [])) = inr posts
    /\ artifact (final_fs matter number_to_string t)
       = JSON_stringify number_to_string (JArr posts) 2
    /\ posts_json number_to_string posts =
         match posts with
         | [] => "[]"
         | _ :: _ =>
             "[" ++ nl ++ "  "
                 ++ join ("," ++ nl ++ "  ")
                         (map (element_text number_to_string) posts)
                 ++ nl ++ "]"
         end
    /\ Forall
         (fun p =>
            exists slug w content data title summary T S,
              resolve (index_path postsDir slug) t = inr (File true w content)
              /\ matter content = inr data
              /\ get_property data "title" = inr title
              /\ get_property data "summary" = inr summary
              /\ p = JObj [("title", title); ("summary", summary);
                           ("url", JStr ("/blog/" ++ slug))]
              /\ serialize number_to_string "  " "    " title = Some T
              /\ serialize number_to_string "  " "    " summary = Some S
              /\ element_text number_to_string p =
                   "{" ++ nl
                       ++ "    " ++ quote "title" ++ ": " ++ T ++ "," ++ nl
                       ++ "    " ++ quote "summary" ++ ": " ++ S ++ "," ++ nl
                       ++ "    " ++ quote "url" ++ ": "
                       ++ quote ("/blog/" ++ slug) ++ nl ++ "  }")
         posts
    /\ (forall s : string,
           serialize number_to_string "  " "    " (JStr s) = Some (quote s)
           /\ JSON_read_string (quote s) = Some s)
    /\ (forall c : ascii,
           32 <= nat_of_ascii c ->
           nat_of_ascii c <> 34 -> nat_of_ascii c <> 92 ->
           quote_char c = String c EmptyString).
Proof.
  intros Hexit.
  destruct (completed_run matter number_to_string t Hexit)
    as (posts & w0 & entries & Hget & Hart & Hroot & Hok & Hposts).
  exists posts. split; [ assumption | ].
  split; [ rewrite stringify_posts; assumption | ].
  split; [ apply posts_json_elements | ].
  split; [ | split ].
  - apply Forall_forall. intros p Hp. rewrite Hposts in Hp.
    apply included_provenance in Hp.
    destruct Hp as (slug & w & content & data & title & summary
                    & _ & Hidx & Hm & Ht & Hs & Htt & Hss & ->).
    destruct (serialize_truthy number_to_string "  " "    " title Htt)
      as [T HT].
    destruct (serialize_truthy number_to_string "  " "    " summary Hss)
      as [S HS].
    exists slug, w, content, data, title, summary, T, S.
    repeat (split; [ assumption || reflexivity | ]).
    apply (serialize_post number_to_string title summary (url_for slug) T S);
      assumption.
  - intros s. split; [ reflexivity | apply read_quote ].
  - apply quote_char_plain.
Qed.

Lemma artifact_shape_witness :
  exists posts,
    fst (getPostsFromDir sample_matter postsDir (World sample_site []))
    = inr posts
    /\ artifact (final_fs sample_matter sample_number_to_string sample_site)
       = JSON_stringify sample_number_to_string (JArr posts) 2
    /\ List.length posts = 2.
Proof.
  destruct (artifact_shape sample_matter sample_number_to_string sample_site)
    as (posts & Hget & Hart & _).
  - reflexivity.
  - exists posts. split; [ exact Hget | ]. split; [ exact Hart | ].
    cbn in Hget. injection Hget as <-. reflexivity.
Defined.

(** ** The sample site, run *)

(** The valid posts of the sample site, in enumeration order; the plain
    file, the draft and the folder without document leave no trace in the
    output. *)
Example sample_run :
  exit_status sample_matter sample_number_to_string sample_site = 0
  /\ artifact (final_fs sample_matter sample_number_to_string sample_site)
     = Some sample_artifact
  /\ trace sample_matter sample_number_to_string sample_site
     = [ReaddirSync postsDir;
        ExistsSync (index_path postsDir "01-post");
        ReadFileSync (index_path postsDir "01-post");
        ExistsSync (index_path postsDir "02-draft");
        ReadFileSync (index_path postsDir "02-draft");
        ExistsSync (index_path postsDir "03-empty");
        ExistsSync (index_path postsDir "04-post");
        ReadFileSync (index_path postsDir "04-post");
        WriteFileSync outputFile sample_artifact;
        ConsoleLog (check_mark ++ " posts.json generated with 2 posts")].
Proof. repeat split. Qed.

(** A content root without subdirectories gives the empty array. *)
Example empty_root_run :
  exit_status sample_matter sample_number_to_string site_empty = 0
  /\ artifact (final_fs sample_matter sample_number_to_string site_empty)
     = Some "[]".
Proof. repeat split. Qed.

(** A falsy value that is not a string is dropped like the empty string:
    the record with [title: 0] is not emitted. *)
Example zero_title_is_dropped :
  sample_matter doc_zero_title
  = inr (JObj [("title", JNum 0%float); ("summary", JStr "E")])
  /\ validated "05-zero" (JNum 0%float) (JStr "E") = [].
Proof. repeat split. Qed.

(** Without a directory to write into, the write throws after the scan and
    the run fails. *)
Example missing_public_run :
  exit_status sample_matter sample_number_to_string site_without_public = 1
  /\ final_fs sample_matter sample_number_to_string site_without_public
     = site_without_public.
Proof. repeat split. Qed.

(** * Further properties of the script *)

(** ** What a run may change *)

Lemma write_at_frame (p : path) (data : string) :
  forall (q : path) (t t' : node),
    write_at p data t = inr t' ->
    is_prefix p q = false ->
    is_prefix q p = false ->
    resolve q t' = resolve q t.
Proof.
  induction p as [ | k rest IH]; intros q t t' Hw Hpq Hqp.
  - discriminate.
  - destruct q as [ | k' q']; [ discriminate | ].
    destruct t as [r w content | r w entries]; [ discriminate | ].
    cbn in Hw, Hpq, Hqp |- *.
    destruct (String.eqb_spec k k') as [<- | Hne].
    + rewrite String.eqb_refl in Hqp. cbn in Hpq, Hqp.
      destruct (find_entry k entries) as [child | ] eqn:Hfind.
      * destruct (write_at rest data child) as [e | child'] eqn:Hc;
          [ discriminate | ].
        injection Hw as <-. cbn.
        rewrite find_entry_replace_same by congruence.
        apply (IH q' child child' Hc Hpq Hqp).
      * destruct rest as [ | k0 rest0]; [ discriminate | discriminate ].
    + destruct (find_entry k entries) as [child | ] eqn:Hfind.
      * destruct (write_at rest data child) as [e | child'];
          [ discriminate | ].
        injection Hw as <-. cbn.
        rewrite find_entry_replace_other by congruence. reflexivity.
      * destruct rest as [ | k0 rest0]; [ | discriminate ].
        destruct w; [ | discriminate ].
        injection Hw as <-. cbn. rewrite find_entry_app_new.
        destruct (find_entry k' entries); [ reflexivity | ].
        destruct (String.eqb_spec k k'); [ contradiction | reflexivity ].
Qed.

(** X1.  Whatever a run does, every path that neither leads to the output
    file nor lies on the way to it resolves after the run to what it
    resolved to before: the content tree and every other file are left as
    they were. *)
Theorem run_changes_only_output (matter : string -> exn + jsval)
    (number_to_string : float -> string) (t : node) (q : path) :
  is_prefix outputFile q = false ->
  is_prefix q outputFile = false ->
  resolve q (final_fs matter number_to_string t) = resolve q t.
Proof.
  intros Hpq Hqp.
  destruct (final_fs_cases matter number_to_string t)
    as [-> | (posts & cs & t' & _ & Hw & ->)].
  - reflexivity.
  - apply (write_at_frame _ _ _ _ _ Hw Hpq Hqp).
Qed.

Lemma run_changes_only_output_witness :
  resolve (index_path postsDir "01-post")
          (final_fs sample_matter sample_number_to_string sample_site)
  = resolve (index_path postsDir "01-post") sample_site
  /\ resolve ["public"; "robots.txt"]
             (final_fs sample_matter sample_number_to_string sample_site)
     = resolve ["public"; "robots.txt"] sample_site.
Proof.
  split.
  - apply (run_changes_only_output sample_matter sample_number_to_string
             sample_site (index_path postsDir "01-post")); reflexivity.
  - apply (run_changes_only_output sample_matter sample_number_to_string
             sample_site ["public"; "robots.txt"]); reflexivity.
Defined.

(** ** When a run succeeds *)

(** X2.  The run exits with status 0 exactly when the content root is a
    directory that can be listed, no subdirectory throws while it is
    visited, and the output path can be written; in every other case it
    exits with status 1 and the tree is left as it was. *)
Theorem success_conditions (matter : string -> exn + jsval)
    (number_to_string : float -> string) (t : node) :
  (exit_status matter number_to_string t = 0 <->
   (exists w entries,
       resolve postsDir t = inr (Dir true w entries)
       /\ forall slug, In slug (folder_names entries) ->
                       throws matter t postsDir slug = false)
   /\ writable outputFile t = true)
  /\ (exit_status matter number_to_string t <> 0 ->
      exit_status matter number_to_string t = 1
      /\ final_fs matter number_to_string t = t).
Proof.
  split.
  - rewrite run_completes. split.
    + intros (posts & t' & Hscan & Hw & _).
      apply scan_returns in Hscan.
      destruct Hscan as (w & entries & Hroot & Hok & _).
      split.
      * exists w, entries. split; [ assumption | ].
        intros slug Hin. rewrite forallb_forall in Hok.
        specialize (Hok slug Hin). destruct (throws matter t postsDir slug);
          [ discriminate | reflexivity ].
      * apply (write_at_writable outputFile
                 (posts_json number_to_string posts)). eauto.
    + intros [(w & entries & Hroot & Hok) Hw].
      assert (Hscan : fst (scan matter t postsDir)
                      = inr (included matter t postsDir (folder_names entries))).
      { apply scan_returns. exists w, entries.
        split; [ assumption | ]. split; [ | reflexivity ].
        apply forallb_forall. intros slug Hin. rewrite Hok by assumption.
        reflexivity. }
      apply (write_at_writable outputFile
               (posts_json number_to_string
                  (included matter t postsDir (folder_names entries)))) in Hw.
      destruct Hw as [t' Hw].
      exists (included matter t postsDir (folder_names entries)), t'.
      split; [ assumption | ]. split; [ assumption | ].
      rewrite run_spec.
      destruct (scan matter t postsDir) as [res cs]. cbn [fst snd] in *.
      subst res. cbv zeta. rewrite Hw. reflexivity.
  - unfold exit_status, final_fs. rewrite run_spec.
    destruct (scan matter t postsDir) as [[e | posts] cs]; cbn [fst snd fs].
    + auto.
    + cbv zeta.
      destruct (write_at outputFile (posts_json number_to_string posts) t);
        cbn [fst snd fs]; [ auto | intros H; contradiction H; reflexivity ].
Qed.

(** ** What a record holds *)

(** X3.  Every record that [getPostsFromDir] returns has a truthy title and
    a truthy summary; when they are strings, neither is empty. *)
Theorem records_are_valid (matter : string -> exn + jsval) (t : node)
    (dir : path) (posts : list jsval) :
  fst (getPostsFromDir matter dir (World t [])) = inr posts ->
  Forall (fun p =>
            to_boolean (field "title" p) = true
            /\ to_boolean (field "summary" p) = true
            /\ field "title" p <> JStr EmptyString
            /\ field "summary" p <> JStr EmptyString
            /\ field "title" p <> JUndefined
            /\ field "summary" p <> JUndefined) posts.
Proof.
  rewrite getPostsFromDir_spec. cbn [fs fst]. intros Hscan.
  apply scan_returns in Hscan. destruct Hscan as (w & entries & _ & _ & ->).
  apply Forall_forall. intros p Hp. apply included_provenance in Hp.
  destruct Hp as (slug & wd & content & data & title & summary
                  & _ & _ & _ & _ & _ & Htt & Hss & ->).
  cbn [field post own_property String.eqb Ascii.eqb Bool.eqb].
  change (field "title" (post title summary (url_for slug))) with title.
  change (field "summary" (post title summary (url_for slug))) with summary.
  repeat split; try assumption; intros ->; discriminate.
Qed.

Lemma records_are_valid_witness :
  Forall (fun p =>
            to_boolean (field "title" p) = true
            /\ to_boolean (field "summary" p) = true
            /\ field "title" p <> JStr EmptyString
            /\ field "summary" p <> JStr EmptyString
            /\ field "title" p <> JUndefined
            /\ field "summary" p <> JUndefined)
         [post (JStr "A") (JStr "B") "/blog/01-post";
          post (JStr "F") (JStr "G") "/blog/04-post"].
Proof.
  apply (records_are_valid sample_matter sample_site postsDir).
  reflexivity.
Defined.

(** ** Failures after and during the scan *)

Lemma unit_calls_no_log (p : path) (index : exn + node) :
  existsb is_console_log (unit_calls p index) = false.
Proof. destruct index; reflexivity. Qed.

Lemma scan_units_no_log (matter : string -> exn + jsval) (t : node)
    (dir : path) (slugs : list string) :
  forall posts0 : list jsval,
    existsb is_console_log (snd (scan_units matter t dir slugs posts0)) = false.
Proof.
  induction slugs as [ | slug rest IH]; intros posts0.
  - reflexivity.
  - cbn [scan_units].
    destruct (unit_verdict matter slug (resolve (index_path dir slug) t))
      as [e | [p | ]]; cbn [snd].
    + apply unit_calls_no_log.
    + specialize (IH (posts0 ++ [p])%list).
      destruct (scan_units matter t dir rest (posts0 ++ [p])); cbn [snd] in *.
      rewrite existsb_app, unit_calls_no_log, IH. reflexivity.
    + specialize (IH posts0).
      destruct (scan_units matter t dir rest posts0); cbn [snd] in *.
      rewrite existsb_app, unit_calls_no_log, IH. reflexivity.
Qed.

Lemma scan_no_log (matter : string -> exn + jsval) (t : node) (dir : path) :
  existsb is_console_log (snd (scan matter t dir)) = false.
Proof.
  unfold scan.
  destruct (resolve dir t) as [e | [r w content | r w entries]];
    try reflexivity.
  destruct r; [ | reflexivity ].
  pose proof (scan_units_no_log matter t dir (folder_names entries) []) as H.
  destruct (scan_units matter t dir (folder_names entries) []); cbn [snd] in *.
  exact H.
Qed.

(** X4.  When the output path cannot be written, the run fails with status
    1, leaves the tree as it was and never prints the success line.  The
    script does not look at the output path beforehand: if the scan
    returns, it has run in full and the failed write is the last call. *)
Theorem unwritable_output_fails (matter : string -> exn + jsval)
    (number_to_string : float -> string) (t : node) :
  writable outputFile t = false ->
  exit_status matter number_to_string t = 1
  /\ final_fs matter number_to_string t = t
  /\ existsb is_console_log (trace matter number_to_string t) = false
  /\ forall posts,
       fst (getPostsFromDir matter postsDir (World t [])) = inr posts ->
       trace matter number_to_string t
       = (calls (snd (getPostsFromDir matter postsDir (World t [])))
            ++ [WriteFileSync outputFile (posts_json number_to_string posts)])%list.
Proof.
  intros Hw. rewrite getPostsFromDir_spec. cbn [fs calls fst snd app].
  unfold exit_status, final_fs, trace. rewrite run_spec.
  pose proof (scan_no_log matter t postsDir) as Hlog.
  destruct (scan matter t postsDir) as [[e | posts] cs]; cbn [fst snd] in *.
  - repeat split; try assumption. discriminate.
  - cbv zeta.
    destruct (write_at outputFile (posts_json number_to_string posts) t)
      as [e | t'] eqn:Hwrite.
    + cbn [fst snd fs calls]. repeat split.
      * rewrite existsb_app, Hlog. reflexivity.
      * intros posts' H. injection H as <-. reflexivity.
    + assert (Hyes : writable outputFile t = true).
      { apply (write_at_writable outputFile
                 (posts_json number_to_string posts)). eauto. }
      congruence.
Qed.

Lemma unwritable_output_fails_witness :
  exit_status sample_matter sample_number_to_string site_without_public = 1
  /\ final_fs sample_matter sample_number_to_string site_without_public
     = site_without_public
  /\ existsb is_console_log
       (trace sample_matter sample_number_to_string site_without_public)
     = false.
Proof.
  destruct (unwritable_output_fails sample_matter sample_number_to_string
              site_without_public) as (H1 & H2 & H3 & _).
  - reflexivity.
  - exact (conj H1 (conj H2 H3)).
Defined.

Lemma scan_units_stops (matter : string -> exn + jsval) (t : node)
    (dir : path) (slug : string) (after : list string) :
  throws matter t dir slug = true ->
  forall (before : list string) (posts0 : list jsval),
    (forall s, In s before -> throws matter t dir s = false) ->
    snd (scan_units matter t dir (before ++ slug :: after) posts0)
    = (flat_map (calls_at t dir) before ++ calls_at t dir slug)%list
    /\ exists e, fst (scan_units matter t dir (before ++ slug :: after) posts0)
                 = inl e.
Proof.
  intros Hthrow. induction before as [ | s rest IH]; intros posts0 Hok.
  - cbn [app flat_map scan_units]. unfold throws, verdict_at in Hthrow.
    unfold calls_at.
    destruct (unit_verdict matter slug (resolve (index_path dir slug) t))
      as [e | v]; [ | discriminate ].
    cbn [fst snd]. eauto.
  - assert (Hs : throws matter t dir s = false) by (apply Hok; left; reflexivity).
    assert (Hrest : forall s', In s' rest -> throws matter t dir s' = false).
    { intros s' Hin. apply Hok. right. assumption. }
    cbn [app flat_map scan_units]. unfold throws, verdict_at in Hs.
    unfold calls_at at 1.
    destruct (unit_verdict matter s (resolve (index_path dir s) t))
      as [e | [p | ]]; [ discriminate | | ].
    + destruct (IH (posts0 ++ [p])%list Hrest) as [Hc He].
      destruct (scan_units matter t dir (rest ++ slug :: after) (posts0 ++ [p]));
        cbn [fst snd] in *.
      rewrite Hc, app_assoc. auto.
    + destruct (IH posts0 Hrest) as [Hc He].
      destruct (scan_units matter t dir (rest ++ slug :: after) posts0);
        cbn [fst snd] in *.
      rewrite Hc, app_assoc. auto.
Qed.

(** X6.  The loop stops at the first subdirectory that throws: the run has
    listed the root, visited the subdirectories before it and this one, and
    makes no call for any subdirectory after it; it exits with status 1. *)
Theorem scan_stops_at_first_exception (matter : string -> exn + jsval)
    (number_to_string : float -> string) (t : node) (w : bool)
    (entries : list (string * node)) (before after : list string)
    (slug : string) :
  resolve postsDir t = inr (Dir true w entries) ->
  folder_names entries = (before ++ slug :: after)%list ->
  (forall s, In s before -> throws matter t postsDir s = false) ->
  throws matter t postsDir slug = true ->
  trace matter number_to_string t
  = (ReaddirSync postsDir
       :: flat_map (calls_at t postsDir) before ++ calls_at t postsDir slug)%list
  /\ exit_status matter number_to_string t = 1.
Proof.
  intros Hroot Hnames Hok Hthrow.
  destruct (scan_units_stops matter t postsDir slug after Hthrow before [] Hok)
    as [Hc [e He]].
  unfold trace, exit_status. rewrite run_spec. unfold scan.
  rewrite Hroot, Hnames.
  destruct (scan_units matter t postsDir (before ++ slug :: after) [])
    as [res cs]. cbn [fst snd] in *. subst res cs. auto.
Qed.

Lemma scan_stops_at_first_exception_witness :
  trace sample_matter sample_number_to_string site_locked_middle
  = [ReaddirSync postsDir;
     ExistsSync (index_path postsDir "01-post");
     ReadFileSync (index_path postsDir "01-post");
     ExistsSync (index_path postsDir "02-locked");
     ReadFileSync (index_path postsDir "02-locked")]
  /\ exit_status sample_matter sample_number_to_string site_locked_middle = 1.
Proof.
  apply (scan_stops_at_first_exception sample_matter
           sample_number_to_string site_locked_middle true blog_locked_middle
           ["01-post"] ["03-post"] "02-locked").
  - reflexivity.
  - reflexivity.
  - intros s [<- | []]. reflexivity.
  - reflexivity.
Defined.

(** ** The line printed on success *)

Lemma digit_code (m : nat) :
  m < 10 -> nat_of_ascii (ascii_of_nat (48 + m)) = 48 + m.
Proof. intros H. apply nat_ascii_embedding. lia. Qed.

Lemma digits_value_digit (m : nat) (acc : string) (v : nat) :
  m < 10 ->
  digits_value (digit m ++ acc) v = digits_value acc (10 * v + m).
Proof.
  intros H. unfold digit, chr. cbn [append digits_value].
  rewrite digit_code by assumption.
  replace (Nat.leb 48 (48 + m)) with true by (symmetry; apply Nat.leb_le; lia).
  replace (Nat.leb (48 + m) 57) with true by (symmetry; apply Nat.leb_le; lia).
  cbn [andb]. f_equal. lia.
Qed.

Lemma digits_value_decimal_fuel (fuel : nat) :
  forall (n : nat) (acc : string),
    n < fuel ->
    exists k, forall v,
      digits_value (decimal_fuel fuel n acc) v
      = digits_value acc (v * 10 ^ k + n).
Proof.
  induction fuel as [ | fuel IH]; intros n acc Hlt; [ lia | ].
  cbn [decimal_fuel].
  pose proof (Nat.mod_upper_bound n 10 ltac:(lia)) as Hmod.
  pose proof (Nat.div_mod_eq n 10) as Hdiv.
  destruct (Nat.eqb_spec (n / 10) 0) as [Hz | Hnz].
  - exists 1. intros v. rewrite digits_value_digit by assumption.
    f_equal. cbn [Nat.pow]. lia.
  - assert (Hsmall : n / 10 < fuel).
    { assert (n / 10 < n) by (apply Nat.div_lt; lia). lia. }
    destruct (IH (n / 10) (digit (n mod 10) ++ acc) Hsmall) as [k Hk].
    exists (S k). intros v. rewrite Hk, digits_value_digit by assumption.
    f_equal. cbn [Nat.pow]. set (x := 10 ^ k). lia.
Qed.

Lemma decimal_fuel_not_empty (fuel : nat) :
  forall (n : nat) (acc : string),
    acc <> EmptyString \/ fuel <> 0 ->
    decimal_fuel fuel n acc <> EmptyString.
Proof.
  induction fuel as [ | fuel IH]; intros n acc H; cbn [decimal_fuel].
  - destruct H as [H | H]; [ assumption | contradiction ].
  - assert (Hacc : digit (n mod 10) ++ acc <> EmptyString) by discriminate.
    destruct (Nat.eqb (n / 10) 0); [ assumption | ].
    apply IH. left. assumption.
Qed.

(** The digits written for a number read back as that number. *)
Lemma read_decimal_decimal (n : nat) : read_decimal (decimal n) = Some n.
Proof.
  unfold read_decimal, decimal.
  pose proof (decimal_fuel_not_empty (S n) n EmptyString) as Hne.
  destruct (digits_value_decimal_fuel (S n) n EmptyString) as [k Hk];
    [ lia | ].
  specialize (Hk 0).
  destruct (decimal_fuel (S n) n EmptyString) as [ | c rest] eqn:E.
  - exfalso. apply Hne; [ right; discriminate | reflexivity ].
  - rewrite Hk. cbn. reflexivity.
Qed.

Lemma length_included (matter : string -> exn + jsval) (t : node) (dir : path)
    (slugs : list string) :
  List.length (included matter t dir slugs)
  = List.length (filter (is_included matter t dir) slugs).
Proof.
  pose proof (url_of_included matter t dir slugs) as H.
  apply (f_equal (@List.length jsval)) in H.
  rewrite !length_map in H. exact H.
Qed.

(** X7.  A run that completes prints one line, as its last call, and the
    number in it is the number of records written: the number of
    subdirectories that passed validation, which is at most the number of
    entries of the content root.  The digits printed read back as that
    number. *)
Theorem success_line_counts_records (matter : string -> exn + jsval)
    (number_to_string : float -> string) (t : node) :
  exit_status matter number_to_string t = 0 ->
  exists posts w entries earlier,
    resolve postsDir t = inr (Dir true w entries)
    /\ fst (getPostsFromDir matter postsDir (World t [])) = inr posts
    /\ trace matter number_to_string t
       = (earlier
            ++ [ConsoleLog (check_mark ++ " posts.json generated with "
                              ++ decimal (List.length posts) ++ " posts")])%list
    /\ existsb is_console_log earlier = false
    /\ List.length posts
       = List.length (filter (is_included matter t postsDir)
                             (folder_names entries))
    /\ List.length posts <= List.length entries
    /\ read_decimal (decimal (List.length posts)) = Some (List.length posts).
Proof.
  intros Hexit. apply run_completes in Hexit.
  destruct Hexit as (posts & t' & Hscan & Hw & Hrun).
  pose proof Hscan as Hs. apply scan_returns in Hs.
  destruct Hs as (w & entries & Hroot & _ & Hposts).
  exists posts, w, entries,
    (snd (scan matter t postsDir)
       ++ [WriteFileSync outputFile (posts_json number_to_string posts)])%list.
  split; [ assumption | ].
  split; [ rewrite getPostsFromDir_spec; assumption | ].
  split; [ unfold trace; rewrite Hrun; cbn [snd calls];
           rewrite <- app_assoc; reflexivity | ].
  split; [ rewrite existsb_app, scan_no_log; reflexivity | ].
  assert (Hlen : List.length posts
                 = List.length (filter (is_included matter t postsDir)
                                       (folder_names entries))).
  { rewrite Hposts. apply length_included. }
  split; [ exact Hlen | ]. split; [ | apply read_decimal_decimal ].
  rewrite Hlen.
  apply Nat.le_trans with (List.length (folder_names entries)).
  - apply filter_length_le.
  - rewrite folder_names_filter, length_map. apply filter_length_le.
Qed.

Lemma success_line_counts_records_witness :
  exists (posts : list jsval) earlier,
    trace sample_matter sample_number_to_string sample_site
    = (earlier
         ++ [ConsoleLog (check_mark ++ " posts.json generated with "
                           ++ decimal (List.length posts) ++ " posts")])%list
    /\ List.length posts = 2.
Proof.
  destruct (success_line_counts_records sample_matter sample_number_to_string
              sample_site)
    as (posts & w & entries & earlier & _ & Hget & Htrace & _).
  - reflexivity.
  - exists posts, earlier. split; [ exact Htrace | ].
    cbn in Hget. injection Hget as <-. reflexivity.
Defined.

(** ** How the result follows the listing *)

Lemma candidates_app (a b : list (string * node)) :
  candidates (a ++ b) = (candidates a ++ candidates b)%list.
Proof.
  induction a as [ | [k [r w content | r w sub]] rest IH]; cbn.
  - reflexivity.
  - assumption.
  - rewrite IH. reflexivity.
Qed.

Lemma scan_candidates_app (matter : string -> exn + jsval) (dir : path)
    (a b : list (string * option node)) :
  forall posts0,
    fst (scan_candidates matter dir (a ++ b) posts0)
    = match fst (scan_candidates matter dir a posts0) with
      | inl e => inl e
      | inr posts => fst (scan_candidates matter dir b posts)
      end.
Proof.
  induction a as [ | [slug found] rest IH]; intros posts0.
  - reflexivity.
  - cbn [app scan_candidates].
    destruct (unit_verdict matter slug (index_of found)) as [e | [p | ]].
    + reflexivity.
    + specialize (IH (posts0 ++ [p])%list).
      destruct (scan_candidates matter dir (rest ++ b) (posts0 ++ [p])),
        (scan_candidates matter dir rest (posts0 ++ [p])); exact IH.
    + specialize (IH posts0).
      destruct (scan_candidates matter dir (rest ++ b) posts0),
        (scan_candidates matter dir rest posts0); exact IH.
Qed.

Lemma fst_scan_candidates (matter : string -> exn + jsval) (t : node)
    (dir : path) (w : bool) (entries : list (string * node)) :
  resolve dir t = inr (Dir true w entries) ->
  NoDup (map fst entries) ->
  fst (scan matter t dir)
  = fst (scan_candidates matter dir (candidates entries) []).
Proof.
  intros Hroot Hnd.
  rewrite (scan_candidates_spec matter t dir true w entries Hroot Hnd).
  destruct (scan_candidates matter dir (candidates entries) []); reflexivity.
Qed.

(** X8.  A subdirectory added at the end of the listing leaves the records
    of the others as they were and in place: the array is the former one,
    followed by the record of the new subdirectory if it passes validation;
    the run throws if the new subdirectory does. *)
Theorem new_folder_appends (matter : string -> exn + jsval) (t t' : node)
    (w w' : bool) (entries : list (string * node)) (slug : string)
    (r0 w0 : bool) (sub : list (string * node)) (posts : list jsval) :
  resolve postsDir t = inr (Dir true w entries) ->
  resolve postsDir t'
  = inr (Dir true w' (entries ++ [(slug, Dir r0 w0 sub)])) ->
  NoDup (map fst (entries ++ [(slug, Dir r0 w0 sub)])) ->
  fst (getPostsFromDir matter postsDir (World t [])) = inr posts ->
  fst (getPostsFromDir matter postsDir (World t' []))
  = match verdict_at matter t' postsDir slug with
    | inl e => inl e
    | inr None => inr posts
    | inr (Some p) => inr (posts ++ [p])%list
    end.
Proof.
  intros Hroot Hroot' Hnd'. rewrite !getPostsFromDir_spec. cbn [fs fst].
  assert (Hnd : NoDup (map fst entries)).
  { rewrite map_app in Hnd'. apply NoDup_app_remove_r in Hnd'. assumption. }
  rewrite (fst_scan_candidates matter t postsDir w entries Hroot Hnd).
  rewrite (fst_scan_candidates matter t' postsDir w' _ Hroot' Hnd').
  intros Hposts. rewrite candidates_app, scan_candidates_app, Hposts.
  assert (Hin : In (slug, Dir r0 w0 sub) (entries ++ [(slug, Dir r0 w0 sub)])).
  { apply in_or_app. right. left. reflexivity. }
  unfold verdict_at.
  rewrite (resolve_index_path _ _ _ _ _ _ _ _ _ Hroot' Hnd' Hin).
  cbn [candidates scan_candidates].
  change (match find_entry "index.md" sub with
          | Some n => inr n
          | None => inl ENOENT
          end) with (index_of (find_entry "index.md" sub)).
  destruct (unit_verdict matter slug (index_of (find_entry "index.md" sub)))
    as [e | [p | ]]; reflexivity.
Qed.

Lemma new_folder_appends_witness :
  fst (getPostsFromDir sample_matter postsDir (World (site blog_grown []) []))
  = inr ([post (JStr "A") (JStr "B") "/blog/01-post";
          post (JStr "F") (JStr "G") "/blog/04-post"]
           ++ [post (JStr "A") (JStr "B") "/blog/05-new"])%list.
Proof.
  apply (new_folder_appends sample_matter site_bare (site blog_grown [])
           true true blog_bare "05-new" true true [("index.md", file doc_A)]).
  - reflexivity.
  - reflexivity.
  - distinct_names.
  - reflexivity.
Defined.

Lemma Permutation_filter_list {A : Type} (f : A -> bool) (l l' : list A) :
  Permutation l l' -> Permutation (filter f l) (filter f l').
Proof.
  induction 1 as [ | x l l' H IH | x y l | l l' l'' H1 IH1 H2 IH2]; cbn.
  - constructor.
  - destruct (f x); auto.
  - destruct (f x), (f y); auto using perm_swap.
  - eapply perm_trans; eassumption.
Qed.

Lemma flat_map_agree {A B : Type} (f g : A -> list B) (l : list A) :
  (forall x, In x l -> f x = g x) -> flat_map f l = flat_map g l.
Proof.
  induction l as [ | x rest IH]; cbn; intros H.
  - reflexivity.
  - rewrite (H x) by (left; reflexivity). rewrite IH; [ reflexivity | ].
    intros y Hy. apply H. right. assumption.
Qed.

(** X9.  The enumeration order decides the order of the records and nothing
    else: if the listing of the content root comes in another order, the
    scan returns whenever it returned before, with the same records in
    another order. *)
Theorem enumeration_order_only_reorders (matter : string -> exn + jsval)
    (t1 t2 : node) (w1 w2 : bool) (entries1 entries2 : list (string * node))
    (posts1 : list jsval) :
  resolve postsDir t1 = inr (Dir true w1 entries1) ->
  resolve postsDir t2 = inr (Dir true w2 entries2) ->
  Permutation entries1 entries2 ->
  NoDup (map fst entries1) ->
  fst (getPostsFromDir matter postsDir (World t1 [])) = inr posts1 ->
  exists posts2,
    fst (getPostsFromDir matter postsDir (World t2 [])) = inr posts2
    /\ Permutation posts1 posts2.
Proof.
  intros Hroot1 Hroot2 Hperm Hnd1. rewrite !getPostsFromDir_spec.
  cbn [fs fst]. intros Hscan. apply scan_returns in Hscan.
  destruct Hscan as (w & entries & Hroot & Hok & ->).
  rewrite Hroot1 in Hroot. injection Hroot as <- <-.
  assert (Hnd2 : NoDup (map fst entries2)).
  { apply (Permutation_NoDup (Permutation_map fst Hperm)). assumption. }
  assert (Hnames : Permutation (folder_names entries1) (folder_names entries2)).
  { rewrite !folder_names_filter.
    apply Permutation_map, Permutation_filter_list. assumption. }
  assert (Hsame : forall slug, In slug (folder_names entries2) ->
                    verdict_at matter t2 postsDir slug
                    = verdict_at matter t1 postsDir slug).
  { intros slug Hin. apply In_folder_names in Hin.
    destruct Hin as (r & wd & sub & Hin2).
    assert (Hin1 : In (slug, Dir r wd sub) entries1).
    { apply (Permutation_in _ (Permutation_sym Hperm)). assumption. }
    unfold verdict_at.
    rewrite (resolve_index_path _ _ _ _ _ _ _ _ _ Hroot1 Hnd1 Hin1).
    rewrite (resolve_index_path _ _ _ _ _ _ _ _ _ Hroot2 Hnd2 Hin2).
    reflexivity. }
  exists (included matter t2 postsDir (folder_names entries2)). split.
  - apply scan_returns. exists w2, entries2. split; [ assumption | ].
    split; [ | reflexivity ].
    apply forallb_forall. intros slug Hin.
    unfold throws. rewrite Hsame by assumption.
    rewrite forallb_forall in Hok.
    apply (Hok slug).
    apply (Permutation_in _ (Permutation_sym Hnames)). assumption.
  - unfold included.
    rewrite (flat_map_agree
               (fun slug => record_of_verdict (verdict_at matter t2 postsDir slug))
               (fun slug => record_of_verdict (verdict_at matter t1 postsDir slug))).
    + apply Permutation_flat_map. assumption.
    + intros slug Hin. rewrite Hsame by assumption. reflexivity.
Qed.

Lemma enumeration_order_only_reorders_witness :
  exists posts2,
    fst (getPostsFromDir sample_matter postsDir
           (World (site blog_shuffled []) [])) = inr posts2
    /\ Permutation [post (JStr "A") (JStr "B") "/blog/01-post";
                    post (JStr "F") (JStr "G") "/blog/04-post"] posts2.
Proof.
  apply (enumeration_order_only_reorders sample_matter site_bare
           (site blog_shuffled []) true true blog_bare blog_shuffled).
  - reflexivity.
  - reflexivity.
  - unfold blog_bare, blog_shuffled.
    match goal with
    | |- Permutation [?a; ?b; ?c; ?d] [?d; ?c; ?a; ?b] =>
        apply perm_trans with [d; a; b; c];
          [ apply perm_trans with [a; d; b; c];
            [ apply perm_skip;
              apply perm_trans with [b; d; c];
              [ apply perm_skip, perm_swap | apply perm_swap ]
            | apply perm_swap ]
          | apply perm_skip;
            apply perm_trans with [a; c; b];
            [ apply perm_skip, perm_swap | apply perm_swap ] ]
    end.
  - distinct_names.
  - reflexivity.
Defined.

(** * The blog list component *)

(** ** Sets of tags *)

Lemma has_In (set : list string) (x : string) : has set x = true <-> In x set.
Proof.
  unfold has. rewrite existsb_exists. split.
  - intros (y & Hin & Heq). apply String.eqb_eq in Heq. subst. assumption.
  - intros Hin. exists x. split; [ assumption | apply String.eqb_refl ].
Qed.

Lemma has_app (a b : list string) (x : string) :
  has (a ++ b) x = has a x || has b x.
Proof. unfold has. apply existsb_app. Qed.

Lemma has_filter (f : string -> bool) (set : list string) (x : string) :
  has (filter f set) x = has set x && f x.
Proof.
  unfold has. induction set as [ | y rest IH]; cbn [filter].
  - reflexivity.
  - destruct (f y) eqn:Hf; cbn [existsb]; rewrite IH;
      destruct (String.eqb_spec x y) as [-> | Hne]; cbn [orb];
      rewrite ?Hf, ?andb_false_r; reflexivity.
Qed.

Section SetOfList.

Let add (set : list string) (x : string) : list string :=
  if has set x then set else (set ++ [x])%list.

Lemma has_fold_add (xs : list string) :
  forall (set : list string) (x : string),
    has (fold_left add xs set) x = has set x || has xs x.
Proof.
  induction xs as [ | y rest IH]; intros set x; cbn [fold_left].
  - cbn. rewrite orb_false_r. reflexivity.
  - rewrite IH. unfold add at 1.
    change (has (y :: rest) x) with (String.eqb x y || has rest x).
    destruct (has set y) eqn:Hy.
    + destruct (String.eqb_spec x y) as [-> | Hne]; cbn.
      * rewrite Hy. reflexivity.
      * reflexivity.
    + rewrite has_app. cbn. rewrite orb_false_r, orb_assoc. reflexivity.
Qed.

Lemma NoDup_fold_add (xs : list string) :
  forall set : list string, NoDup set -> NoDup (fold_left add xs set).
Proof.
  induction xs as [ | y rest IH]; intros set Hnd; cbn [fold_left].
  - assumption.
  - apply IH. unfold add. destruct (has set y) eqn:Hy; [ assumption | ].
    apply NoDup_app; [ assumption | repeat constructor; intros [] | ].
    intros z Hz [<- | []]. apply has_In in Hz. congruence.
Qed.

Lemma fold_add_NoDup (xs : list string) :
  forall set : list string,
    NoDup (set ++ xs) -> fold_left add xs set = (set ++ xs)%list.
Proof.
  induction xs as [ | y rest IH]; intros set Hnd; cbn [fold_left].
  - rewrite app_nil_r. reflexivity.
  - assert (Hy : has set y = false).
    { destruct (has set y) eqn:E; [ | reflexivity ].
      apply has_In in E. apply NoDup_remove_2 in Hnd.
      exfalso. apply Hnd. apply in_or_app. left. assumption. }
    unfold add at 2. rewrite Hy. rewrite IH.
    + rewrite <- app_assoc. reflexivity.
    + rewrite <- app_assoc. assumption.
Qed.

Lemma has_new_Set (xs : list string) (x : string) :
  has (new_Set xs) x = has xs x.
Proof. unfold new_Set. apply (has_fold_add xs [] x). Qed.

Lemma NoDup_new_Set (xs : list string) : NoDup (new_Set xs).
Proof. unfold new_Set. apply (NoDup_fold_add xs []). constructor. Qed.

Lemma new_Set_NoDup (xs : list string) : NoDup xs -> new_Set xs = xs.
Proof. intros H. unfold new_Set. apply (fold_add_NoDup xs []). assumption. Qed.

End SetOfList.

Lemma has_toggleTag (tag t : string) (st : BlogState) :
  has (filterSet (toggleTag tag st)) t
  = if String.eqb t tag then negb (has (filterSet st) tag)
    else has (filterSet st) t.
Proof.
  unfold toggleTag. cbn [filterSet]. rewrite has_new_Set.
  destruct (has (filterSet st) tag) eqn:Htag.
  - rewrite has_filter.
    destruct (String.eqb_spec t tag) as [-> | Hne]; cbn.
    + apply andb_false_r.
    + apply andb_true_r.
  - rewrite has_app. cbn.
    destruct (String.eqb_spec t tag) as [-> | Hne]; cbn.
    + apply orb_true_r.
    + rewrite orb_false_r. reflexivity.
Qed.

(** X10.  [toggleTag] flips the membership of its tag, leaves every other
    tag as it was, keeps the set free of duplicates and writes no other
    signal. *)
Theorem toggleTag_flips_one_tag (tag : string) (st : BlogState) :
  has (filterSet (toggleTag tag st)) tag = negb (has (filterSet st) tag)
  /\ (forall t, t <> tag ->
                has (filterSet (toggleTag tag st)) t = has (filterSet st) t)
  /\ NoDup (filterSet (toggleTag tag st))
  /\ isFilterOpen (toggleTag tag st) = isFilterOpen st
  /\ searchQuery (toggleTag tag st) = searchQuery st
  /\ sortBy (toggleTag tag st) = sortBy st.
Proof.
  split; [ | split; [ | split ] ].
  - rewrite has_toggleTag, String.eqb_refl. reflexivity.
  - intros t Hne. rewrite has_toggleTag.
    destruct (String.eqb_spec t tag); [ contradiction | reflexivity ].
  - apply NoDup_new_Set.
  - auto.
Qed.

Lemma filter_other_tags (tag : string) (set : list string) :
  has set tag = false ->
  filter (fun t => negb (String.eqb t tag)) set = set.
Proof.
  induction set as [ | y rest IH]; cbn; intros H.
  - reflexivity.
  - apply orb_false_iff in H. destruct H as [Hy Hrest].
    rewrite String.eqb_sym, Hy. cbn. rewrite IH by assumption. reflexivity.
Qed.

Lemma NoDup_filter_list {A : Type} (f : A -> bool) (l : list A) :
  NoDup l -> NoDup (filter f l).
Proof.
  induction l as [ | x rest IH]; cbn; intros H.
  - constructor.
  - inversion H as [ | ? ? Hnot Hnd]; subst.
    destruct (f x); auto. constructor; auto.
    intros Hin. apply filter_In in Hin. tauto.
Qed.

(** X11.  Toggling the same tag twice gives back the same selection: every
    tag is selected after exactly when it was before.  In a set without
    duplicates, a tag that was not selected leaves the state exactly as it
    was, and a tag that was selected ends up last in insertion order. *)
Theorem toggleTag_twice (tag : string) (st : BlogState) :
  NoDup (filterSet st) ->
  (forall t, has (filterSet (toggleTag tag (toggleTag tag st))) t
             = has (filterSet st) t)
  /\ (has (filterSet st) tag = false ->
      toggleTag tag (toggleTag tag st) = st)
  /\ (has (filterSet st) tag = true ->
      filterSet (toggleTag tag (toggleTag tag st))
      = (filter (fun t => negb (String.eqb t tag)) (filterSet st) ++ [tag])%list).
Proof.
  intros Hnd. split; [ | split ].
  - intros t. rewrite !has_toggleTag.
    destruct (String.eqb_spec t tag) as [-> | Hne]; [ | reflexivity ].
    rewrite String.eqb_refl. apply negb_involutive.
  - intros Habsent. destruct st as [set open query sort].
    cbn [filterSet] in *. unfold toggleTag. cbn [filterSet isFilterOpen searchQuery sortBy].
    rewrite Habsent.
    assert (Hnd' : NoDup (set ++ [tag])).
    { apply NoDup_app; [ assumption | repeat constructor; intros [] | ].
      intros z Hz [<- | []]. apply has_In in Hz. congruence. }
    rewrite (new_Set_NoDup _ Hnd'), has_app. cbn.
    rewrite String.eqb_refl, orb_true_r.
    rewrite filter_app. cbn. rewrite String.eqb_refl. cbn.
    rewrite app_nil_r, (filter_other_tags tag set Habsent).
    rewrite (new_Set_NoDup _ Hnd). reflexivity.
  - intros Hpresent. unfold toggleTag. cbn [filterSet]. rewrite Hpresent.
    set (others := filter (fun t => negb (String.eqb t tag)) (filterSet st)).
    assert (Hothers : NoDup others) by (apply NoDup_filter_list; assumption).
    rewrite (new_Set_NoDup _ Hothers).
    assert (Hgone : has others tag = false).
    { unfold others. rewrite has_filter, String.eqb_refl. apply andb_false_r. }
    rewrite Hgone. apply new_Set_NoDup.
    apply NoDup_app; [ assumption | repeat constructor; intros [] | ].
    intros z Hz [<- | []]. apply has_In in Hz. congruence.
Qed.

Lemma toggleTag_twice_witness :
  toggleTag "async" (toggleTag "async" (toggleTag "csharp" initial_state))
  = toggleTag "csharp" initial_state.
Proof.
  destruct (toggleTag_twice "async" (toggleTag "csharp" initial_state))
    as (_ & Habsent & _).
  - apply NoDup_new_Set.
  - apply Habsent. reflexivity.
Defined.

(** ** Substrings *)

Lemma prefix_append (a b : string) : String.prefix a (a ++ b) = true.
Proof.
  induction a as [ | c a IH]; cbn.
  - destruct b; reflexivity.
  - destruct (ascii_dec c c); [ assumption | contradiction ].
Qed.

Lemma prefix_split (a s : string) :
  String.prefix a s = true -> exists b, s = a ++ b.
Proof.
  revert s. induction a as [ | c a IH]; intros s H.
  - exists s. reflexivity.
  - destruct s as [ | d s]; cbn in H; [ discriminate | ].
    destruct (ascii_dec c d) as [<- | ]; [ | discriminate ].
    destruct (IH s H) as [b ->]. exists b. reflexivity.
Qed.

(** [includes] holds exactly of the strings that hold the searched string
    somewhere. *)
Lemma includes_spec (s search : string) :
  includes s search = true <-> exists a b, s = a ++ search ++ b.
Proof.
  split.
  - induction s as [ | c s IH]; cbn [includes];
      destruct (String.prefix search _) eqn:Hp.
    + intros _. apply prefix_split in Hp. destruct Hp as [b ->].
      exists EmptyString, b. reflexivity.
    + discriminate.
    + intros _. apply prefix_split in Hp. destruct Hp as [b ->].
      exists EmptyString, b. reflexivity.
    + intros H. destruct (IH H) as (a & b & ->).
      exists (String c a), b. reflexivity.
  - intros (a & b & ->). induction a as [ | c a IH].
    + cbn [append]. destruct (search ++ b) eqn:E; cbn [includes];
        rewrite <- E, prefix_append; reflexivity.
    + cbn [append includes]. rewrite IH.
      destruct (String.prefix search (String c (a ++ search ++ b)));
        reflexivity.
Qed.

(** ** The filter *)

Lemma forallb_same_members (P : string -> bool) (s1 s2 : list string) :
  (forall x, has s1 x = has s2 x) -> forallb P s1 = forallb P s2.
Proof.
  intros H. apply eq_true_iff_eq. rewrite !forallb_forall.
  split; intros Hall x Hin; apply Hall; apply has_In;
    [ rewrite H | rewrite <- H ]; apply has_In; assumption.
Qed.

Lemma filter_twice {A : Type} (f g : A -> bool) (l : list A) :
  filter g (filter f l) = filter (fun x => f x && g x) l.
Proof.
  induction l as [ | x rest IH]; cbn.
  - reflexivity.
  - destruct (f x); cbn; [ destruct (g x) | ]; rewrite IH; reflexivity.
Qed.

Lemma filter_all {A : Type} (f : A -> bool) (l : list A) :
  (forall x, In x l -> f x = true) -> filter f l = l.
Proof.
  induction l as [ | x rest IH]; cbn; intros H.
  - reflexivity.
  - rewrite (H x) by (left; reflexivity). rewrite IH; [ reflexivity | ].
    intros y Hy. apply H. right. assumption.
Qed.

Section BlogFilterProperties.

Variable toLowerCase : string -> string.
Variable entry : Type.
Variable data_title : entry -> string.
Variable data_summary : entry -> option string.
Variable data_tags : entry -> list string.

Let shown := filteredPosts toLowerCase entry data_title data_summary data_tags.
Let tags_ok := tagMatch toLowerCase entry data_tags.
Let text_ok := searchMatch toLowerCase entry data_title data_summary data_tags.
Let tagged := has_tag toLowerCase entry data_tags.

Lemma tagMatch_same_members (st1 st2 : BlogState) (e : entry) :
  (forall x, has (filterSet st1) x = has (filterSet st2) x) ->
  tags_ok st1 e = tags_ok st2 e.
Proof. intros H. apply forallb_same_members. assumption. Qed.

Lemma shown_same_selection (data : list entry) (st1 st2 : BlogState) :
  (forall x, has (filterSet st1) x = has (filterSet st2) x) ->
  searchQuery st1 = searchQuery st2 ->
  shown data st1 = shown data st2.
Proof.
  intros Hset Hquery. unfold shown, filteredPosts. apply filter_ext.
  intros e. fold (tags_ok st1 e) (tags_ok st2 e).
  rewrite (tagMatch_same_members st1 st2 e Hset).
  unfold searchMatch. rewrite Hquery. reflexivity.
Qed.

Lemma shown_with_tag (data : list entry) (st st' : BlogState) (tag : string) :
  (forall x, has (filterSet st') x = has (filterSet st ++ [tag]) x) ->
  searchQuery st' = searchQuery st ->
  shown data st' = filter (fun e => tagged e tag) (shown data st).
Proof.
  intros Hset Hquery. unfold shown, filteredPosts. rewrite filter_twice.
  apply filter_ext. intros e.
  assert (Htags : tagMatch toLowerCase entry data_tags st' e
                  = tagMatch toLowerCase entry data_tags st e && tagged e tag).
  { unfold tagMatch.
    rewrite (forallb_same_members _ _ (filterSet st ++ [tag]) Hset).
    rewrite forallb_app. cbn. rewrite andb_true_r. reflexivity. }
  rewrite Htags. unfold searchMatch. rewrite Hquery.
  destruct (tagMatch toLowerCase entry data_tags st e), (tagged e tag);
    cbn; rewrite ?andb_true_r, ?andb_false_r; reflexivity.
Qed.

End BlogFilterProperties.

(** X12.  After [clearAllFilters] no tag is selected and the query is
    empty, the menu and the sort order are as they were, and the filter
    keeps every entry of the collection, in order. *)
Theorem clearAllFilters_shows_everything (toLowerCase : string -> string)
    (entry : Type) (data_title : entry -> string)
    (data_summary : entry -> option string) (data_tags : entry -> list string)
    (data : list entry) (st : BlogState) :
  toLowerCase EmptyString = EmptyString ->
  filteredPosts toLowerCase entry data_title data_summary data_tags data
                (clearAllFilters st) = data
  /\ filterSet (clearAllFilters st) = []
  /\ searchQuery (clearAllFilters st) = EmptyString
  /\ isFilterOpen (clearAllFilters st) = isFilterOpen st
  /\ sortBy (clearAllFilters st) = sortBy st.
Proof.
  intros Hlower. split; [ | auto ].
  unfold filteredPosts. apply filter_all. intros e _.
  unfold tagMatch, searchMatch, clearAllFilters.
  cbn [filterSet searchQuery new_Set fold_left forallb]. rewrite Hlower.
  reflexivity.
Qed.

Lemma clearAllFilters_shows_everything_witness :
  sample_filteredPosts
    (clearAllFilters (handleSearchInput "docker" (toggleTag "csharp" initial_state)))
  = sample_collection.
Proof.
  apply (clearAllFilters_shows_everything ascii_lower SampleEntry sample_title
           sample_summary sample_tags sample_collection).
  reflexivity.
Defined.

(** X13.  Selecting one more tag narrows what is shown to the entries that
    carry it, compared without regard to case; taking a selected tag away
    widens it back: what was shown is what is then shown, narrowed by the
    tag. *)
Theorem toggleTag_narrows_or_widens (toLowerCase : string -> string)
    (entry : Type) (data_title : entry -> string)
    (data_summary : entry -> option string) (data_tags : entry -> list string)
    (data : list entry) (tag : string) (st : BlogState) :
  (has (filterSet st) tag = false ->
   filteredPosts toLowerCase entry data_title data_summary data_tags data
                 (toggleTag tag st)
   = filter (fun e => has_tag toLowerCase entry data_tags e tag)
            (filteredPosts toLowerCase entry data_title data_summary data_tags
                           data st))
  /\ (has (filterSet st) tag = true ->
      filteredPosts toLowerCase entry data_title data_summary data_tags data st
      = filter (fun e => has_tag toLowerCase entry data_tags e tag)
               (filteredPosts toLowerCase entry data_title data_summary
                              data_tags data (toggleTag tag st))).
Proof.
  split; intros Htag.
  - apply shown_with_tag; [ | reflexivity ].
    intros x. rewrite has_toggleTag, has_app. cbn.
    destruct (String.eqb_spec x tag) as [-> | Hne].
    + rewrite Htag. reflexivity.
    + rewrite orb_false_r. reflexivity.
  - apply shown_with_tag; [ | reflexivity ].
    intros x. rewrite has_app, has_toggleTag. cbn.
    destruct (String.eqb_spec x tag) as [-> | Hne].
    + rewrite Htag. reflexivity.
    + rewrite orb_false_r. reflexivity.
Qed.

Lemma toggleTag_narrows_or_widens_witness :
  sample_filteredPosts (toggleTag "ASYNC" (toggleTag "csharp" initial_state))
  = filter (fun e => has_tag ascii_lower SampleEntry sample_tags e "ASYNC")
           (sample_filteredPosts (toggleTag "csharp" initial_state)).
Proof.
  destruct (toggleTag_narrows_or_widens ascii_lower SampleEntry sample_title
              sample_summary sample_tags sample_collection "ASYNC"
              (toggleTag "csharp" initial_state)) as [Hnarrow _].
  apply Hnarrow. reflexivity.
Defined.

(** X14.  An entry is kept exactly when it is in the collection, carries
    every selected tag, and either the query is empty in lower case or the
    query in lower case occurs somewhere in the lower case of the title, of
    the summary when there is one, or of a tag. *)
Theorem filteredPosts_keeps (toLowerCase : string -> string)
    (entry : Type) (data_title : entry -> string)
    (data_summary : entry -> option string) (data_tags : entry -> list string)
    (data : list entry) (st : BlogState) (e : entry) :
  In e (filteredPosts toLowerCase entry data_title data_summary data_tags
                      data st)
  <->
  In e data
  /\ (forall value, In value (filterSet st) ->
        exists tag, In tag (data_tags e)
                    /\ toLowerCase tag = toLowerCase value)
  /\ (toLowerCase (searchQuery st) = EmptyString
      \/ (exists a b,
             toLowerCase (data_title e)
             = a ++ toLowerCase (searchQuery st) ++ b)
      \/ (exists summary a b,
             data_summary e = Some summary
             /\ toLowerCase summary = a ++ toLowerCase (searchQuery st) ++ b)
      \/ (exists tag a b,
             In tag (data_tags e)
             /\ toLowerCase tag = a ++ toLowerCase (searchQuery st) ++ b)).
Proof.
  unfold filteredPosts. rewrite filter_In, andb_true_iff.
  assert (Htags :
            tagMatch toLowerCase entry data_tags st e = true <->
            forall value, In value (filterSet st) ->
              exists tag, In tag (data_tags e)
                          /\ toLowerCase tag = toLowerCase value).
  { unfold tagMatch. rewrite forallb_forall.
    split; intros H value Hin; specialize (H value Hin).
    - unfold has_tag in H. apply existsb_exists in H.
      destruct H as (tag & Htag & Heq). apply String.eqb_eq in Heq. eauto.
    - destruct H as (tag & Htag & Heq). unfold has_tag.
      apply existsb_exists. exists tag. split; [ assumption | ].
      apply String.eqb_eq. assumption. }
  assert (Htext :
            searchMatch toLowerCase entry data_title data_summary data_tags
                        st e = true <->
            (toLowerCase (searchQuery st) = EmptyString
             \/ (exists a b,
                    toLowerCase (data_title e)
                    = a ++ toLowerCase (searchQuery st) ++ b)
             \/ (exists summary a b,
                    data_summary e = Some summary
                    /\ toLowerCase summary
                       = a ++ toLowerCase (searchQuery st) ++ b)
             \/ (exists tag a b,
                    In tag (data_tags e)
                    /\ toLowerCase tag
                       = a ++ toLowerCase (searchQuery st) ++ b))).
  { unfold searchMatch. rewrite !orb_true_iff, String.eqb_eq, includes_spec.
    rewrite existsb_exists.
    split.
    - intros [[[H | H] | H] | H].
      + auto.
      + auto.
      + destruct (data_summary e) as [summary | ]; [ | discriminate ].
        apply includes_spec in H. destruct H as (a & b & H).
        right. right. left. exists summary, a, b. auto.
      + destruct H as (tag & Hin & H). apply includes_spec in H.
        destruct H as (a & b & H). right. right. right. exists tag, a, b. auto.
    - intros [H | [H | [H | H]]].
      + auto.
      + auto.
      + destruct H as (summary & a & b & -> & H). left. right.
        apply includes_spec. eauto.
      + destruct H as (tag & a & b & Hin & H). right. exists tag.
        split; [ assumption | ]. apply includes_spec. eauto. }
  tauto.
Qed.

(** X15.  What is shown depends on which tags are selected, not on the
    order in which they were clicked: toggling two tags in either order
    shows the same entries, and so do any two states with the same query
    and the same selected tags. *)
Theorem selection_order_is_irrelevant (toLowerCase : string -> string)
    (entry : Type) (data_title : entry -> string)
    (data_summary : entry -> option string) (data_tags : entry -> list string)
    (data : list entry) :
  (forall tag1 tag2 st,
      filteredPosts toLowerCase entry data_title data_summary data_tags data
                    (toggleTag tag1 (toggleTag tag2 st))
      = filteredPosts toLowerCase entry data_title data_summary data_tags data
                      (toggleTag tag2 (toggleTag tag1 st)))
  /\ (forall st1 st2,
         (forall x, has (filterSet st1) x = has (filterSet st2) x) ->
         searchQuery st1 = searchQuery st2 ->
         filteredPosts toLowerCase entry data_title data_summary data_tags
                       data st1
         = filteredPosts toLowerCase entry data_title data_summary data_tags
                         data st2).
Proof.
  split.
  - intros tag1 tag2 st. apply shown_same_selection; [ | reflexivity ].
    intros x. rewrite !has_toggleTag.
    destruct (String.eqb_spec x tag1) as [E1 | N1];
      destruct (String.eqb_spec x tag2) as [E2 | N2];
      subst; rewrite ?String.eqb_refl; try reflexivity.
    + destruct (String.eqb_spec tag1 tag2); [ contradiction | reflexivity ].
    + destruct (String.eqb_spec tag2 tag1); [ contradiction | reflexivity ].
  - intros st1 st2. apply shown_same_selection.
Qed.
